(** * UCB1 bandit and simulation harness of [bandits_trauma.ipynb]

    A shallow embedding of the notebook's Python code.

    - Python [int] is [Z]; a Python [float] is the real number it denotes
      ([R]; no infinities or NaN). The arithmetic comes in two readings.
      The agent of section "The agent" computes with exact operations:
      what is proved about its [values] and scores is a statement over
      exact arithmetic. Module [Rounded] runs [select_arm] over an
      [arithmetic] whose operations may round, as binary64 does, and are
      only known to keep signs and order; what is proved there holds for
      every such rounding, the exact one included.
    - A Python list is a [list]; subscripting follows Python: an index in
      [-len, 0) counts from the end, anything outside [-len, len) raises
      [IndexError].
    - Exceptions are results [Raise e]; a method of the agent is a
      computation over the agent's state that keeps whatever was written
      before the exception.
    - The global [random] module is a tape of draws with a cursor. *)

From Stdlib Require Import ZArith Reals Lra Lia String.
From stdpp Require Import base list.

Local Open Scope Z_scope.

(** ** Exceptions and the state-and-exception monad *)

Inductive exn : Set := IndexError | ValueError | ZeroDivisionError.

Inductive res (A : Type) : Type :=
| Ok (a : A)
| Raise (e : exn).
Arguments Ok {A} a.
Arguments Raise {A} e.

Definition M (S A : Type) : Type := S -> res A * S.

Definition ret {S A} (a : A) : M S A := fun s => (Ok a, s).

Definition bind {S A B} (c : M S A) (k : A -> M S B) : M S B :=
  fun s => match c s with
           | (Ok a, s') => k a s'
           | (Raise e, s') => (Raise e, s')
           end.

Definition get {S} : M S S := fun s => (Ok s, s).
Definition put {S} (s : S) : M S unit := fun _ => (Ok tt, s).

Definition lift {S A} (r : res A) : M S A := fun s => (r, s).

Definition rbind {A B} (r : res A) (k : A -> res B) : res B :=
  match r with
  | Ok a => k a
  | Raise e => Raise e
  end.

Notation "'do' x <- c ; k" := (bind c (fun x => k))
  (at level 10, x name, c at level 100, k at level 200, only parsing).
Notation "'let?' x := r 'in' k" := (rbind r (fun x => k))
  (at level 10, x name, r at level 100, k at level 200, only parsing).

(** ** Python primitives *)

Module Py.

(** [range(n)] for an int [n]: empty when [n <= 0]. *)
Definition range (n : Z) : list nat := seq 0 (Z.to_nat n).

(** Position addressed by subscript [i] in a list of length [len]. *)
Definition norm_index (len : nat) (i : Z) : option nat :=
  if (0 <=? i) && (i <? Z.of_nat len) then Some (Z.to_nat i)
  else if (- Z.of_nat len <=? i) && (i <? 0)
       then Some (Z.to_nat (Z.of_nat len + i))
       else None.

(** [l[i]] *)
Definition getitem {A} (l : list A) (i : Z) : res A :=
  match norm_index (length l) i with
  | Some k => match l !! k with
              | Some x => Ok x
              | None => Raise IndexError
              end
  | None => Raise IndexError
  end.

(** [l[i] = x] *)
Definition setitem {A} (l : list A) (i : Z) (x : A) : res (list A) :=
  match norm_index (length l) i with
  | Some k => Ok (<[k := x]> l)
  | None => Raise IndexError
  end.

(** [sum(l)] on ints: starts from 0 and adds from the left. *)
Definition sum (l : list Z) : Z := fold_left Z.add l 0.

(** [x / y] on floats. *)
Definition div (x y : R) : res R :=
  if Req_dec_T y 0 then Raise ZeroDivisionError else Ok (x / y)%R.

(** [math.log(x)] *)
Definition log (x : R) : res R :=
  if Rle_dec x 0 then Raise ValueError else Ok (ln x).

(** [math.sqrt(x)] *)
Definition sqrt (x : R) : res R :=
  if Rlt_dec x 0 then Raise ValueError else Ok (R_sqrt.sqrt x).

(** [max(l)]: the running maximum is replaced only by a strictly
    greater item. *)
Fixpoint max_from (m : R) (l : list R) : R :=
  match l with
  | [] => m
  | y :: l' => max_from (if Rgt_dec y m then y else m) l'
  end.

Definition max (l : list R) : res R :=
  match l with
  | [] => Raise ValueError
  | x :: l' => Ok (max_from x l')
  end.

(** [l.index(m)]: the first position holding [m]. *)
Fixpoint index_from (m : R) (l : list R) (i : nat) : res nat :=
  match l with
  | [] => Raise ValueError
  | y :: l' => if Req_dec_T y m then Ok i else index_from m l' (S i)
  end.

Definition index (l : list R) (m : R) : res nat := index_from m l 0.

End Py.

(** ** The agent *)

(** [def ind_max(x): m = max(x); return x.index(m)] *)
Definition ind_max (x : list R) : res nat :=
  let? m := Py.max x in
  Py.index x m.

Record UCB1 : Type := mkUCB1 { counts : list Z; values : list R }.

(** [initialize(self, n_arms)] *)
Definition initialize (n_arms : Z) : M UCB1 unit :=
  put {| counts := map (fun _ => 0) (Py.range n_arms);
         values := map (fun _ => 0%R) (Py.range n_arms) |}.

(** [__init__(self, n_arms)], run on an object without attributes. *)
Definition blank : UCB1 := {| counts := []; values := [] |}.

Definition init (n_arms : Z) : M UCB1 unit := initialize n_arms.

(** [UCB1(n_arms)] *)
Definition new_UCB1 (n_arms : Z) : res UCB1 :=
  match init n_arms blank with
  | (Ok _, self) => Ok self
  | (Raise e, _) => Raise e
  end.

(** First loop of [select_arm]: the first arm of [arms] whose count is 0. *)
Fixpoint cold_loop (arms : list nat) (cs : list Z) : res (option nat) :=
  match arms with
  | [] => Ok None
  | arm :: rest =>
      let? c := Py.getitem cs (Z.of_nat arm) in
      if c =? 0 then Ok (Some arm) else cold_loop rest cs
  end.

(** Second loop of [select_arm]: fills [ucb_values] arm by arm. *)
Fixpoint ucb_loop (arms : list nat) (self : UCB1) (total_counts : Z)
    (ucb_values : list R) : res (list R) :=
  match arms with
  | [] => Ok ucb_values
  | arm :: rest =>
      let? l := Py.log (IZR total_counts) in
      let? c := Py.getitem (counts self) (Z.of_nat arm) in
      let? q := Py.div (2 * l)%R (IZR c) in
      let? bonus := Py.sqrt q in
      let? v := Py.getitem (values self) (Z.of_nat arm) in
      let? ucb_values' := Py.setitem ucb_values (Z.of_nat arm) (v + bonus)%R in
      ucb_loop rest self total_counts ucb_values'
  end.

(** The scores [select_arm] compares once no count is 0. *)
Definition ucb_values (self : UCB1) : res (list R) :=
  let n_arms := length (counts self) in
  ucb_loop (Py.range (Z.of_nat n_arms)) self (Py.sum (counts self))
    (map (fun _ => 0%R) (Py.range (Z.of_nat n_arms))).

(** [select_arm(self)] *)
Definition select_arm : M UCB1 nat :=
  do self <- get;
  let n_arms := length (counts self) in
  do cold <- lift (cold_loop (Py.range (Z.of_nat n_arms)) (counts self));
  match cold with
  | Some arm => ret arm
  | None =>
      do ucb <- lift (ucb_values self);
      lift (ind_max ucb)
  end.

(** The value assigned by [update]:
    [((n - 1) / float(n)) * value + (1 / float(n)) * reward]. *)
Definition new_value (n : Z) (value reward : R) : res R :=
  let? a := Py.div (IZR (n - 1)) (IZR n) in
  let? b := Py.div 1 (IZR n) in
  Ok (a * value + b * reward)%R.

Definition read_count (i : Z) : M UCB1 Z :=
  do self <- get; lift (Py.getitem (counts self) i).

Definition write_count (i : Z) (c : Z) : M UCB1 unit :=
  do self <- get;
  do cs <- lift (Py.setitem (counts self) i c);
  put {| counts := cs; values := values self |}.

Definition read_value (i : Z) : M UCB1 R :=
  do self <- get; lift (Py.getitem (values self) i).

Definition write_value (i : Z) (v : R) : M UCB1 unit :=
  do self <- get;
  do vs <- lift (Py.setitem (values self) i v);
  put {| counts := counts self; values := vs |}.

(** [update(self, chosen_arm, reward)] *)
Definition update (chosen_arm : Z) (reward : R) : M UCB1 unit :=
  do c <- read_count chosen_arm;
  do _ <- write_count chosen_arm (c + 1);
  do n <- read_count chosen_arm;
  do value <- read_value chosen_arm;
  do nv <- lift (new_value n value reward);
  write_value chosen_arm nv.

(** ** The random module and the environment *)

(** The generator: a tape of uniform floats for [random.random()], a tape
    of raw integers for [random.choice], and the cursor. *)
Record rng : Type := mkRng {
  floats : nat -> R;
  raws : nat -> nat;
  cursor : nat
}.

Definition advance (g : rng) : rng :=
  {| floats := floats g; raws := raws g; cursor := S (cursor g) |}.

(** [random.random()] *)
Definition random_random : M rng R :=
  fun g => (Ok (floats g (cursor g)), advance g).

(** [random.choice(seq)]: an element at a position below [len(seq)];
    [IndexError] on an empty sequence. *)
Definition random_choice {A} (l : list A) : M rng A :=
  fun g => match l !! (raws g (cursor g) mod length l)%nat with
           | Some x => (Ok x, advance g)
           | None => (Raise IndexError, g)
           end.

(** [emergency_type = ['stab', 'gunshot']] *)
Definition emergency_type : list string := ["stab"; "gunshot"]%string.

Record SimpleEmergency : Type := mkEmergency { its_type : string }.

(** [SimpleEmergency()] *)
Definition new_SimpleEmergency : M rng SimpleEmergency :=
  do t <- random_choice emergency_type;
  ret {| its_type := t |}.

(** [random.random() > p] *)
Definition draw_gt (p : R) : M rng (option bool) :=
  do u <- random_random;
  ret (Some (if Rgt_dec u p then true else false)).

(** [apply_treatment(self, treatment)]; [None] is Python's [None], returned
    when no branch applies. *)
Definition apply_treatment (self : SimpleEmergency) (treatment : string)
  : M rng (option bool) :=
  if (its_type self =? "stab")%string && (treatment =? "basic")%string
  then draw_gt (6 / 10)
  else if (its_type self =? "stab")%string && (treatment =? "advanced")%string
  then draw_gt (5 / 10)
  else if (its_type self =? "gunshot")%string && (treatment =? "basic")%string
  then draw_gt (75 / 100)
  else if (its_type self =? "gunshot")%string
          && (treatment =? "advanced")%string
  then draw_gt (45 / 100)
  else ret None.

(** Truth value of what [apply_treatment] returns. *)
Definition truthy (o : option bool) : bool :=
  match o with
  | Some b => b
  | None => false
  end.

(** ** The harness *)

(** A method call on the local object [bandit] from harness code: the
    object after the call is handed back next to the result. *)
Definition call {A} (m : M UCB1 A) (bandit : UCB1) : M rng (A * UCB1) :=
  fun g => match m bandit with
           | (Ok a, bandit') => (Ok (a, bandit'), g)
           | (Raise e, _) => (Raise e, g)
           end.

(** One iteration of the loop of [train_UCB1]. *)
Definition train_step (arm_labels : list string) (bandit : UCB1)
  : M rng UCB1 :=
  do e <- new_SimpleEmergency;
  do ab <- call select_arm bandit;
  let action := fst ab in
  let bandit := snd ab in
  do label <- lift (Py.getitem arm_labels (Z.of_nat action));
  do success <- apply_treatment e label;
  do ub <- call (update (Z.of_nat action)
                   (if truthy success then 1 else 0)%R) bandit;
  ret (snd ub).

Fixpoint train_loop (iters : list nat) (arm_labels : list string)
    (bandit : UCB1) : M rng UCB1 :=
  match iters with
  | [] => ret bandit
  | _ :: rest =>
      do bandit' <- train_step arm_labels bandit;
      train_loop rest arm_labels bandit'
  end.

(** [train_UCB1(trials, arm_labels)] *)
Definition train_UCB1 (trials : Z) (arm_labels : list string) : M rng UCB1 :=
  do bandit <- lift (new_UCB1 (Z.of_nat (length arm_labels)));
  train_loop (Py.range trials) arm_labels bandit.

(** Local variables of the loop of [bandit_vs_AB]. *)
Record scoreboard : Type := mkBoard {
  bandit : UCB1;
  bandit_score : Z;
  AB_score : Z
}.

(** One iteration of the loop of [bandit_vs_AB], at loop index [i]. *)
Definition compare_step (treatments : list string) (i : nat)
    (b : scoreboard) : M rng scoreboard :=
  do e <- new_SimpleEmergency;
  do ab <- call select_arm (bandit b);
  let action := fst ab in
  do bandit_treatment <- lift (Py.getitem treatments (Z.of_nat action));
  do bandit_success <- apply_treatment e bandit_treatment;
  do ub <- (if truthy bandit_success
            then call (update (Z.of_nat action) 1%R) (snd ab)
            else call (update (Z.of_nat action) 0%R) (snd ab));
  let bandit_score' :=
    if truthy bandit_success then bandit_score b + 1 else bandit_score b in
  do AB_treatment <- (if (Z.of_nat i mod 2 =? 0)
                      then lift (Py.getitem treatments 0)
                      else lift (Py.getitem treatments 1));
  do AB_success <- apply_treatment e AB_treatment;
  let AB_score' :=
    if truthy AB_success then AB_score b + 1 else AB_score b in
  ret {| bandit := snd ub; bandit_score := bandit_score';
         AB_score := AB_score' |}.

Fixpoint compare_loop (iters : list nat) (treatments : list string)
    (b : scoreboard) : M rng scoreboard :=
  match iters with
  | [] => ret b
  | i :: rest =>
      do b' <- compare_step treatments i b;
      compare_loop rest treatments b'
  end.

(** The body of [bandit_vs_AB] for given [trials] and [treatments]. *)
Definition bandit_vs_AB_with (trials : Z) (treatments : list string)
  : M rng (Z * Z) :=
  do bandit <- lift (new_UCB1 (Z.of_nat (length treatments)));
  do b <- compare_loop (Py.range trials) treatments
            {| bandit := bandit; bandit_score := 0; AB_score := 0 |};
  ret (bandit_score b, AB_score b).

(** [bandit_vs_AB()] *)
Definition bandit_vs_AB : M rng (Z * Z) :=
  bandit_vs_AB_with 1000 ["basic"; "advanced"]%string.

(** ** Scenarios and specification-side definitions *)

(** A round of the select/update cycle with reward [r], and a run of
    rounds, one per reward, collecting the arms selected. *)
Fixpoint play (rewards : list R) : M UCB1 (list nat) :=
  match rewards with
  | [] => ret []
  | r :: rest =>
      do arm <- select_arm;
      do _ <- update (Z.of_nat arm) r;
      do arms <- play rest;
      ret (arm :: arms)
  end.

(** Successive [update(i, r)] calls, one per reward. *)
Fixpoint feed (i : Z) (rewards : list R) : M UCB1 unit :=
  match rewards with
  | [] => ret tt
  | r :: rest => do _ <- update i r; feed i rest
  end.

(** [r_1 + ... + r_n] *)
Definition total_reward (rewards : list R) : R :=
  fold_right Rplus 0%R rewards.

(** The update the specification prescribes, in its words:
    [value + (reward - value) / count], [count] already incremented. *)
Definition incremental_mean (n : Z) (value reward : R) : R :=
  (value + (reward - value) / IZR n)%R.

(** The score of the specification:
    [value + sqrt(2 * ln(total) / count)]. *)
Definition ucb_score (total count : Z) (value : R) : R :=
  (value + R_sqrt.sqrt (2 * ln (IZR total) / IZR count))%R.

(** Agents as [initialize] and [update] make them: as many values as
    counts, no negative count. *)
Definition well_formed (self : UCB1) : Prop :=
  length (values self) = length (counts self)
  /\ Forall (fun c => 0 <= c) (counts self).

(** [count[0] * value[0] + ... + count[K-1] * value[K-1]]: the reward an
    agent has been given so far, read back from its statistics. *)
Fixpoint weighted (cs : list Z) (vs : list R) : R :=
  match cs, vs with
  | c :: cs', v :: vs' => (IZR c * v + weighted cs' vs')%R
  | _, _ => 0%R
  end.

Definition observed_reward (self : UCB1) : R :=
  weighted (counts self) (values self).

(** The number of arms never selected so far. *)
Definition untried (self : UCB1) : nat :=
  length (filter (fun c => c = 0) (counts self)).

(** The treatments [apply_treatment] has a branch for. *)
Definition known_treatment (treatment : string) : bool :=
  (treatment =? "basic")%string || (treatment =? "advanced")%string.

(** The reward [train_UCB1] feeds back for an outcome. *)
Definition reward_of (success : option bool) : R :=
  (if truthy success then 1 else 0)%R.

(** ** Selection over a rounded arithmetic *)

(** The float operations [select_arm] uses: [float(n)] and [math.log(n)] of
    an int, [+], [*], [/] and [math.sqrt]. Each returns the float the
    operation produces, rounding included. *)
Record arithmetic : Type := mkArith {
  fl_of_int : Z -> R;
  fl_log : Z -> R;
  fl_add : R -> R -> R;
  fl_mul : R -> R -> R;
  fl_div : R -> R -> R;
  fl_sqrt : R -> R
}.

(** What is assumed of the operations: rounding keeps signs and order. *)
Record lawful (A : arithmetic) : Prop := mkLawful {
  fl_of_int_pos : forall c, 1 <= c -> (0 < fl_of_int A c)%R;
  fl_of_int_mono :
    forall c c', c <= c' -> (fl_of_int A c <= fl_of_int A c')%R;
  fl_log_nonneg : forall t, 1 <= t -> (0 <= fl_log A t)%R;
  fl_mul_nonneg :
    forall x y, (0 <= x)%R -> (0 <= y)%R -> (0 <= fl_mul A x y)%R;
  fl_div_nonneg :
    forall x y, (0 <= x)%R -> (0 < y)%R -> (0 <= fl_div A x y)%R;
  fl_div_anti :
    forall x y y', (0 <= x)%R -> (0 < y)%R -> (y <= y')%R ->
                   (fl_div A x y' <= fl_div A x y)%R;
  fl_sqrt_mono :
    forall x y, (0 <= x)%R -> (x <= y)%R -> (fl_sqrt A x <= fl_sqrt A y)%R;
  fl_add_mono :
    forall x x' y y', (x <= x')%R -> (y <= y')%R ->
                      (fl_add A x y <= fl_add A x' y')%R
}.

(** The arithmetic that does not round. *)
Definition exact_arith : arithmetic :=
  {| fl_of_int := IZR;
     fl_log := fun t => ln (IZR t);
     fl_add := Rplus;
     fl_mul := Rmult;
     fl_div := Rdiv;
     fl_sqrt := R_sqrt.sqrt |}.

(** A coarse arithmetic, to exercise ties made by rounding: every sum is
    rounded down to an integer, the other operations are exact. *)
Definition floor_sum_arith : arithmetic :=
  {| fl_of_int := IZR;
     fl_log := fun t => ln (IZR t);
     fl_add := fun x y => IZR (Zfloor (x + y));
     fl_mul := Rmult;
     fl_div := Rdiv;
     fl_sqrt := R_sqrt.sqrt |}.

Module Rounded.

Section WithArithmetic.

Variable A : arithmetic.

(** [math.log(n)] of an int *)
Definition log (n : Z) : res R :=
  if n <=? 0 then Raise ValueError else Ok (fl_log A n).

(** [x / y] on floats *)
Definition div (x y : R) : res R :=
  if Req_dec_T y 0 then Raise ZeroDivisionError else Ok (fl_div A x y).

(** [math.sqrt(x)] *)
Definition sqrt (x : R) : res R :=
  if Rlt_dec x 0 then Raise ValueError else Ok (fl_sqrt A x).

(** Second loop of [select_arm]: fills [ucb_values] arm by arm. *)
Fixpoint ucb_loop (arms : list nat) (self : UCB1) (total_counts : Z)
    (ucb_values : list R) : res (list R) :=
  match arms with
  | [] => Ok ucb_values
  | arm :: rest =>
      let? l := log total_counts in
      let? c := Py.getitem (counts self) (Z.of_nat arm) in
      let? q := div (fl_mul A (fl_of_int A 2) l) (fl_of_int A c) in
      let? bonus := sqrt q in
      let? v := Py.getitem (values self) (Z.of_nat arm) in
      let? ucb_values' :=
        Py.setitem ucb_values (Z.of_nat arm) (fl_add A v bonus) in
      ucb_loop rest self total_counts ucb_values'
  end.

Definition ucb_values (self : UCB1) : res (list R) :=
  let n_arms := length (counts self) in
  ucb_loop (Py.range (Z.of_nat n_arms)) self (Py.sum (counts self))
    (map (fun _ => 0%R) (Py.range (Z.of_nat n_arms))).

(** [select_arm(self)] *)
Definition select_arm : M UCB1 nat :=
  do self <- get;
  let n_arms := length (counts self) in
  do cold <- lift (cold_loop (Py.range (Z.of_nat n_arms)) (counts self));
  match cold with
  | Some arm => ret arm
  | None =>
      do ucb <- lift (ucb_values self);
      lift (ind_max ucb)
  end.

(** The float [value + sqrt(2 * log(total) / count)] evaluates to. *)
Definition score (total count : Z) (value : R) : R :=
  fl_add A value
    (fl_sqrt A (fl_div A (fl_mul A (fl_of_int A 2) (fl_log A total))
                  (fl_of_int A count))).

End WithArithmetic.

End Rounded.

(** ** Python primitives: basic facts *)

Lemma range_of_nat (n : nat) : Py.range (Z.of_nat n) = seq 0 n.
Proof. unfold Py.range. now rewrite Nat2Z.id. Qed.

Lemma norm_index_nat (len k : nat) :
  (k < len)%nat -> Py.norm_index len (Z.of_nat k) = Some k.
Proof.
  intros Hk. unfold Py.norm_index.
  destruct (0 <=? Z.of_nat k) eqn:E1; [|lia].
  destruct (Z.of_nat k <? Z.of_nat len) eqn:E2; [|lia].
  simpl. now rewrite Nat2Z.id.
Qed.

Lemma norm_index_lt (len : nat) (i : Z) (k : nat) :
  Py.norm_index len i = Some k -> (k < len)%nat.
Proof.
  unfold Py.norm_index.
  destruct ((0 <=? i) && (i <? Z.of_nat len)) eqn:E1.
  - intros [= <-]. apply andb_prop in E1 as [? ?]. lia.
  - destruct ((- Z.of_nat len <=? i) && (i <? 0)) eqn:E2; [|discriminate].
    intros [= <-]. apply andb_prop in E2 as [? ?]. lia.
Qed.

Lemma norm_index_out (len : nat) (i : Z) :
  Z.of_nat len <= i \/ i < - Z.of_nat len -> Py.norm_index len i = None.
Proof.
  intros H. unfold Py.norm_index.
  destruct ((0 <=? i) && (i <? Z.of_nat len)) eqn:E1.
  { apply andb_prop in E1 as [? ?]. lia. }
  destruct ((- Z.of_nat len <=? i) && (i <? 0)) eqn:E2; [|reflexivity].
  apply andb_prop in E2 as [? ?]. lia.
Qed.

Lemma norm_index_neg (len : nat) (i : Z) :
  - Z.of_nat len <= i < 0 ->
  Py.norm_index len i = Some (Z.to_nat (Z.of_nat len + i)).
Proof.
  intros H. unfold Py.norm_index.
  destruct ((0 <=? i) && (i <? Z.of_nat len)) eqn:E1.
  { apply andb_prop in E1 as [? ?]. lia. }
  destruct ((- Z.of_nat len <=? i) && (i <? 0)) eqn:E2; [reflexivity|].
  apply andb_false_iff in E2 as [?|?]; lia.
Qed.

Lemma getitem_nat {A} (l : list A) (k : nat) (x : A) :
  l !! k = Some x -> Py.getitem l (Z.of_nat k) = Ok x.
Proof.
  intros H. unfold Py.getitem.
  rewrite norm_index_nat by (eapply lookup_lt_Some; eauto).
  now rewrite H.
Qed.

Lemma setitem_nat {A} (l : list A) (k : nat) (x : A) :
  (k < length l)%nat -> Py.setitem l (Z.of_nat k) x = Ok (<[k := x]> l).
Proof.
  intros H. unfold Py.setitem. now rewrite norm_index_nat.
Qed.

Lemma fold_left_add_shift (l : list Z) (a : Z) :
  fold_left Z.add l a = a + fold_left Z.add l 0.
Proof.
  revert a. induction l as [|x l IH]; intros a; simpl; [lia|].
  rewrite (IH (a + x)), (IH (0 + x)). lia.
Qed.

Lemma sum_cons (x : Z) (l : list Z) : Py.sum (x :: l) = x + Py.sum l.
Proof. unfold Py.sum. simpl. apply fold_left_add_shift. Qed.

Lemma sum_insert (l : list Z) (k : nat) (c d : Z) :
  l !! k = Some c -> Py.sum (<[k := d]> l) = Py.sum l - c + d.
Proof.
  revert k. induction l as [|x l IH]; intros [|k] H; simpl in *;
    try discriminate.
  - injection H as ->. rewrite !sum_cons. lia.
  - rewrite !sum_cons, (IH k H). lia.
Qed.

Lemma sum_lower (l : list Z) (b : Z) :
  Forall (fun c => b <= c) l -> Z.of_nat (length l) * b <= Py.sum l.
Proof.
  induction 1 as [|x l Hx _ IH]; [reflexivity|].
  rewrite sum_cons. cbn [length]. lia.
Qed.

(** ** The model on concrete inputs *)

Example range_negative : Py.range (-3) = [].
Proof. reflexivity. Qed.

Example getitem_last : Py.getitem [10; 20; 30] (-1) = Ok 30.
Proof. reflexivity. Qed.

Example getitem_beyond : Py.getitem [10; 20; 30] 3 = Raise IndexError.
Proof. reflexivity. Qed.

Example getitem_below : Py.getitem [10; 20; 30] (-4) = Raise IndexError.
Proof. reflexivity. Qed.

Example sum_counts : Py.sum [3; 0; 4] = 7.
Proof. reflexivity. Qed.

Example new_UCB1_3 :
  new_UCB1 3 = Ok {| counts := [0; 0; 0]; values := [0; 0; 0]%R |}.
Proof. reflexivity. Qed.

Example select_arm_untried :
  fst (select_arm {| counts := [2; 0; 0]; values := [1; 0; 0]%R |})
  = Ok 1%nat.
Proof. reflexivity. Qed.

Example ind_max_empty : ind_max [] = Raise ValueError.
Proof. reflexivity. Qed.

Example update_beyond :
  fst (update 2 1%R {| counts := [0; 0]; values := [0; 0]%R |})
  = Raise IndexError.
Proof. reflexivity. Qed.

Example apply_treatment_unknown (g : rng) :
  apply_treatment {| its_type := "stab" |} "placebo" g = (Ok None, g).
Proof. reflexivity. Qed.

(** ** The agent: how the methods run *)

Lemma cold_loop_seq (n s : nat) (cs : list Z) :
  (s + n <= length cs)%nat ->
  (exists arm, cold_loop (seq s n) cs = Ok (Some arm)
               /\ (s <= arm < s + n)%nat /\ cs !! arm = Some 0
               /\ forall j c, (s <= j < arm)%nat -> cs !! j = Some c -> c <> 0)
  \/ (cold_loop (seq s n) cs = Ok None
      /\ forall j c, (s <= j < s + n)%nat -> cs !! j = Some c -> c <> 0).
Proof.
  revert s. induction n as [|n IH]; intros s Hlen.
  - right. split; [reflexivity|]. intros j c Hj. lia.
  - cbn [seq cold_loop].
    destruct (lookup_lt_is_Some_2 cs s ltac:(lia)) as [c Hc].
    rewrite (getitem_nat _ _ _ Hc). cbn [rbind].
    destruct (Z.eqb_spec c 0) as [->|Hne].
    + left. exists s. split; [reflexivity|]. split; [lia|].
      split; [exact Hc|]. intros j d Hj. lia.
    + destruct (IH (S s) ltac:(lia)) as [(arm & E & Hr & Hz & Hlow)|[E Hall]].
      * left. exists arm. split; [exact E|]. split; [lia|].
        split; [exact Hz|]. intros j d Hj Hd.
        destruct (decide (j = s)) as [->|Hjs]; [congruence|].
        apply (Hlow j d); [lia|auto].
      * right. split; [auto|]. intros j d Hj Hd.
        destruct (decide (j = s)) as [->|Hjs]; [congruence|].
        apply (Hall j d); [lia|auto].
Qed.

Lemma select_arm_eq (self : UCB1) :
  select_arm self =
  (match cold_loop (seq 0 (length (counts self))) (counts self) with
   | Ok (Some arm) => Ok arm
   | Ok None => let? ucb := ucb_values self in ind_max ucb
   | Raise e => Raise e
   end, self).
Proof.
  unfold select_arm, bind, get, lift, ret. rewrite range_of_nat.
  destruct (cold_loop _ _) as [[arm|]|e]; try reflexivity.
  destruct (ucb_values self); reflexivity.
Qed.

Lemma select_arm_cold (self : UCB1) (arm : nat) :
  counts self !! arm = Some 0 ->
  (forall j c, (j < arm)%nat -> counts self !! j = Some c -> c <> 0) ->
  select_arm self = (Ok arm, self).
Proof.
  intros Hz Hlow. rewrite select_arm_eq.
  destruct (cold_loop_seq (length (counts self)) 0 (counts self) ltac:(lia))
    as [(a & -> & Hr & Ha & Hal)|[_ Hall]].
  - destruct (Nat.lt_trichotomy a arm) as [Hlt|[->|Hgt]]; [|reflexivity|].
    + exfalso. now apply (Hlow a 0 Hlt Ha).
    + exfalso. now apply (Hal arm 0 ltac:(lia) Hz).
  - apply lookup_lt_Some in Hz as Hlt.
    exfalso. now apply (Hall arm 0 ltac:(lia) Hz).
Qed.

Lemma getitem_at {A} (l : list A) (i : Z) (k : nat) (x : A) :
  Py.norm_index (length l) i = Some k -> l !! k = Some x ->
  Py.getitem l i = Ok x.
Proof. intros Hi Hk. unfold Py.getitem. now rewrite Hi, Hk. Qed.

Lemma update_at (self : UCB1) (i : Z) (k : nat) (r : R) (c : Z) (v : R) :
  Py.norm_index (length (counts self)) i = Some k ->
  length (values self) = length (counts self) ->
  counts self !! k = Some c ->
  values self !! k = Some v ->
  c + 1 <> 0 ->
  update i r self =
  (Ok tt,
   {| counts := <[k := c + 1]> (counts self);
      values := <[k := (IZR (c + 1 - 1) / IZR (c + 1) * v
                        + 1 / IZR (c + 1) * r)%R]> (values self) |}).
Proof.
  intros Hi Hlen Hc Hv Hn.
  pose proof (lookup_lt_Some _ _ _ Hc) as Lc.
  unfold update, read_count, write_count, read_value, write_value, bind, get,
    lift, put.
  rewrite (getitem_at _ _ _ _ Hi Hc). unfold Py.setitem at 1. rewrite Hi.
  cbn [counts values].
  rewrite (getitem_at (<[k:=c + 1]> (counts self)) i k (c + 1));
    [|now rewrite length_insert|now apply list_lookup_insert_eq].
  rewrite (getitem_at (values self) i k v); [|now rewrite Hlen|exact Hv].
  unfold new_value, Py.div.
  destruct (Req_dec_T (IZR (c + 1)) 0) as [E|_].
  { exfalso. apply Hn. now apply eq_IZR_R0. }
  cbn [rbind counts values]. unfold Py.setitem. rewrite Hlen, Hi. reflexivity.
Qed.

Lemma update_nat (self : UCB1) (k : nat) (r : R) (c : Z) (v : R) :
  counts self !! k = Some c ->
  values self !! k = Some v ->
  length (values self) = length (counts self) ->
  c + 1 <> 0 ->
  update (Z.of_nat k) r self =
  (Ok tt,
   {| counts := <[k := c + 1]> (counts self);
      values := <[k := (IZR (c + 1 - 1) / IZR (c + 1) * v
                        + 1 / IZR (c + 1) * r)%R]> (values self) |}).
Proof.
  intros Hc Hv Hlen Hn. apply update_at; auto.
  apply norm_index_nat. eapply lookup_lt_Some; eauto.
Qed.

Lemma update_out (self : UCB1) (i : Z) (r : R) :
  Py.norm_index (length (counts self)) i = None ->
  update i r self = (Raise IndexError, self).
Proof.
  intros Hi. unfold update, read_count, bind, get, lift, Py.getitem.
  now rewrite Hi.
Qed.

Lemma map_const_seq {A} (x : A) (n s : nat) :
  map (fun _ => x) (seq s n) = replicate n x.
Proof.
  revert s. induction n as [|n IH]; intros s; [reflexivity|].
  cbn. now rewrite IH.
Qed.

Lemma new_UCB1_eq (K : Z) :
  new_UCB1 K = Ok {| counts := replicate (Z.to_nat K) 0;
                     values := replicate (Z.to_nat K) 0%R |}.
Proof.
  unfold new_UCB1, init, initialize, put, Py.range.
  now rewrite !map_const_seq.
Qed.

Lemma play_cold (rewards : list R) :
  forall (pre : list Z) (vs : list R),
    Forall (fun c => c <> 0) pre ->
    length vs = (length pre + length rewards)%nat ->
    exists final,
      play rewards {| counts := pre ++ replicate (length rewards) 0;
                      values := vs |}
      = (Ok (seq (length pre) (length rewards)), final).
Proof.
  induction rewards as [|r rest IH]; intros pre vs Hpre Hlen.
  - eexists. reflexivity.
  - cbn [length replicate seq play].
    set (self := {| counts := pre ++ 0 :: replicate (length rest) 0;
                    values := vs |}).
    assert (Hk : counts self !! length pre = Some 0)
      by (cbn; apply list_lookup_middle; reflexivity).
    assert (Hsel : select_arm self = (Ok (length pre), self)).
    { apply select_arm_cold; [exact Hk|].
      intros j c Hj Hc. cbn in Hc. rewrite lookup_app_l in Hc by exact Hj.
      rewrite Forall_lookup in Hpre. exact (Hpre j c Hc). }
    destruct (lookup_lt_is_Some_2 vs (length pre)) as [v Hv].
    { cbn [length] in Hlen. lia. }
    cbn [length] in Hlen.
    assert (Hup := update_nat self (length pre) r 0 v Hk Hv).
    unfold self in Hup at 1 2 4 5. cbn [counts values] in Hup.
    rewrite length_app in Hup. cbn [length] in Hup.
    rewrite length_replicate in Hup.
    specialize (Hup ltac:(lia) ltac:(lia)).
    rewrite insert_app_r_alt in Hup by lia.
    rewrite Nat.sub_diag in Hup. cbn [insert list_insert] in Hup.
    change (pre ++ (0 + 1) :: replicate (length rest) 0)
      with (pre ++ [0 + 1] ++ replicate (length rest) 0) in Hup.
    rewrite app_assoc in Hup.
    set (v1 := (IZR (0 + 1 - 1) / IZR (0 + 1) * v + 1 / IZR (0 + 1) * r)%R)
      in Hup.
    destruct (IH (pre ++ [0 + 1]) (<[length pre := v1]> vs))
      as [final Hfinal].
    { apply Forall_app. split; [exact Hpre|]. repeat constructor. lia. }
    { rewrite length_insert, length_app. cbn [length]. lia. }
    exists final. unfold bind at 1. rewrite Hsel.
    unfold bind at 1. rewrite Hup.
    unfold bind at 1. rewrite Hfinal.
    rewrite length_app, Nat.add_1_r. reflexivity.
Qed.

(** ** Cold start *)

(** C1. Whenever some arm has count 0, [select_arm] returns the
    lowest-indexed such arm; and on a fresh agent with [K] arms, [K] rounds
    of [select_arm] followed by an update of the selected arm, with any
    rewards, select the arms 0, 1, ..., K-1 in this order. *)
Theorem cold_start :
  (forall (self : UCB1) (arm : nat),
      counts self !! arm = Some 0 ->
      (forall j c, (j < arm)%nat -> counts self !! j = Some c -> c <> 0) ->
      select_arm self = (Ok arm, self))
  /\ (forall (K : nat) (rewards : list R),
        length rewards = K ->
        exists fresh final,
          new_UCB1 (Z.of_nat K) = Ok fresh
          /\ play rewards fresh = (Ok (seq 0 K), final)).
Proof.
  split; [exact select_arm_cold|].
  intros K rewards <-. rewrite new_UCB1_eq, Nat2Z.id.
  destruct (play_cold rewards [] (replicate (length rewards) 0%R))
    as [final Hfinal]; [constructor|now rewrite length_replicate|].
  eexists _, final. split; [reflexivity|exact Hfinal].
Qed.

Lemma cold_start_witness :
  select_arm {| counts := [3; 0; 1; 0]; values := [1; 0; 0; 0]%R |}
  = (Ok 1%nat, {| counts := [3; 0; 1; 0]; values := [1; 0; 0; 0]%R |})
  /\ exists fresh final,
      new_UCB1 3 = Ok fresh
      /\ play [1; 0; 1]%R fresh = (Ok [0; 1; 2]%nat, final).
Proof.
  split.
  - apply (proj1 cold_start); [reflexivity|].
    intros [|j] c Hj; [intros [= <-]; discriminate|lia].
  - apply (proj2 cold_start 3%nat [1; 0; 1]%R). reflexivity.
Defined.

(** ** Selection is a read *)

(** C6. [select_arm] leaves the agent's counts and values as they were,
    and a second call right after the first returns the same result. *)
Theorem select_arm_pure_read (self : UCB1) :
  snd (select_arm self) = self
  /\ fst (select_arm (snd (select_arm self))) = fst (select_arm self).
Proof.
  assert (H : snd (select_arm self) = self)
    by (now rewrite select_arm_eq).
  split; [exact H|]. now rewrite H.
Qed.

(** ** The update rule *)

(** C4. For a count [n >= 1] after the increment, the value the code
    assigns, [((n-1)/n) * v + (1/n) * r], is the incremental mean
    [v + (r - v) / n] of the specification. *)
Theorem new_value_incremental_mean (n : Z) (v r : R) :
  1 <= n -> new_value n v r = Ok (incremental_mean n v r).
Proof.
  intros Hn. unfold new_value, incremental_mean, Py.div.
  assert (Hnz : IZR n <> 0%R) by (apply not_0_IZR; lia).
  destruct (Req_dec_T (IZR n) 0) as [E|_]; [contradiction|].
  cbn [rbind]. f_equal. rewrite minus_IZR. field. exact Hnz.
Qed.

Lemma new_value_incremental_mean_witness :
  new_value 4 (1 / 2) 1 = Ok (incremental_mean 4 (1 / 2) 1).
Proof. apply (new_value_incremental_mean 4 (1 / 2) 1). lia. Defined.

Lemma feed_mean (rewards : list R) :
  forall (self : UCB1) (k : nat) (c : Z) (v : R),
    length (values self) = length (counts self) ->
    counts self !! k = Some c ->
    values self !! k = Some v ->
    0 <= c ->
    exists final v',
      feed (Z.of_nat k) rewards self = (Ok tt, final)
      /\ counts final !! k = Some (c + Z.of_nat (length rewards))
      /\ values final !! k = Some v'
      /\ (v' * IZR (c + Z.of_nat (length rewards))
          = v * IZR c + total_reward rewards)%R.
Proof.
  induction rewards as [|r rest IH]; intros self k c v Hlen Hc Hv Hpos.
  - exists self, v. cbn [feed length total_reward fold_right].
    rewrite Z.add_0_r. repeat split; auto. lra.
  - pose proof (lookup_lt_Some _ _ _ Hc) as Lc.
    pose proof (update_nat self k r c v Hc Hv Hlen ltac:(lia)) as Hup.
    set (v1 := (IZR (c + 1 - 1) / IZR (c + 1) * v + 1 / IZR (c + 1) * r)%R)
      in Hup.
    set (self1 := {| counts := <[k:=c + 1]> (counts self);
                     values := <[k:=v1]> (values self) |}) in Hup.
    destruct (IH self1 k (c + 1) v1) as (final & v' & Hf & Hcf & Hvf & Hm).
    { unfold self1. cbn. now rewrite !length_insert. }
    { unfold self1. cbn. now apply list_lookup_insert_eq. }
    { unfold self1. cbn. apply list_lookup_insert_eq. now rewrite Hlen. }
    { lia. }
    exists final, v'. cbn [feed]. unfold bind at 1. rewrite Hup.
    split; [exact Hf|]. cbn [length].
    replace (c + Z.of_nat (S (length rest)))
      with (c + 1 + Z.of_nat (length rest)) by lia.
    split; [exact Hcf|]. split; [exact Hvf|].
    rewrite Hm. cbn [total_reward fold_right]. fold (total_reward rest).
    assert (Hnz : IZR (c + 1) <> 0%R) by (apply not_0_IZR; lia).
    unfold v1. rewrite !plus_IZR, !minus_IZR, !plus_IZR in *. field.
    exact Hnz.
Qed.

(** C3. On a fresh agent with [K] arms, [n >= 1] successive updates of arm
    [i] with rewards [r_1 .. r_n] all return, and leave [count[i] = n] and
    [value[i] = (r_1 + ... + r_n) / n]: over exact arithmetic the value is
    the mean itself, so it is within 1e-9 of it. *)
Theorem update_running_mean (K i : Z) (rewards : list R) :
  0 <= i < K ->
  rewards <> [] ->
  exists fresh final value,
    new_UCB1 K = Ok fresh
    /\ feed i rewards fresh = (Ok tt, final)
    /\ counts final !! Z.to_nat i = Some (Z.of_nat (length rewards))
    /\ values final !! Z.to_nat i = Some value
    /\ value = (total_reward rewards / IZR (Z.of_nat (length rewards)))%R
    /\ (Rabs (value - total_reward rewards / IZR (Z.of_nat (length rewards)))
        <= 1 / 10 ^ 9)%R.
Proof.
  intros Hi Hne. rewrite new_UCB1_eq.
  set (fresh := {| counts := replicate (Z.to_nat K) 0;
                   values := replicate (Z.to_nat K) 0%R |}).
  destruct (feed_mean rewards fresh (Z.to_nat i) 0 0%R)
    as (final & v' & Hf & Hc & Hv & Hm).
  { unfold fresh. cbn. now rewrite !length_replicate. }
  { unfold fresh. cbn. apply lookup_replicate_2. lia. }
  { unfold fresh. cbn. apply lookup_replicate_2. lia. }
  { lia. }
  rewrite Z2Nat.id in Hf by lia. rewrite Z.add_0_l in Hc, Hm.
  assert (Hn : (0 < IZR (Z.of_nat (length rewards)))%R).
  { apply IZR_lt. destruct rewards; [contradiction|cbn [length]; lia]. }
  assert (Hmean : v' = (total_reward rewards
                        / IZR (Z.of_nat (length rewards)))%R).
  { rewrite Rmult_0_l, Rplus_0_l in Hm. rewrite <- Hm. field. lra. }
  exists fresh, final, v'. repeat (split; [assumption || reflexivity|]).
  rewrite <- Hmean. unfold Rminus. rewrite Rplus_opp_r, Rabs_R0.
  apply Rlt_le, Rdiv_lt_0_compat; [lra|]. apply pow_lt. lra.
Qed.

Lemma update_running_mean_witness :
  exists fresh final value,
    new_UCB1 2 = Ok fresh
    /\ feed 1 [1; 0; 1 / 2]%R fresh = (Ok tt, final)
    /\ counts final !! Z.to_nat 1 = Some (Z.of_nat 3)
    /\ values final !! Z.to_nat 1 = Some value
    /\ value = (total_reward [1; 0; 1 / 2] / IZR (Z.of_nat 3))%R
    /\ (Rabs (value - total_reward [1; 0; 1 / 2] / IZR (Z.of_nat 3))
        <= 1 / 10 ^ 9)%R.
Proof.
  apply (update_running_mean 2 1 [1; 0; 1 / 2]%R); [lia|discriminate].
Defined.

(** ** Construction *)

Lemma select_arm_no_arms (vs : list R) :
  select_arm {| counts := []; values := vs |}
  = (Raise ValueError, {| counts := []; values := vs |}).
Proof. now rewrite select_arm_eq. Qed.

(** C9, as the code has it. Construction never raises: for [K < 1] it
    returns an agent without arms, on which the first [select_arm] raises
    [ValueError] and every [update] raises [IndexError]. *)
Theorem construction_without_arms (K : Z) :
  K < 1 ->
  new_UCB1 K = Ok {| counts := []; values := [] |}
  /\ select_arm {| counts := []; values := [] |}
     = (Raise ValueError, {| counts := []; values := [] |})
  /\ forall i r, update i r {| counts := []; values := [] |}
                 = (Raise IndexError, {| counts := []; values := [] |}).
Proof.
  intros HK. rewrite new_UCB1_eq.
  replace (Z.to_nat K) with 0%nat by lia. cbn [replicate].
  split; [reflexivity|]. split; [apply select_arm_no_arms|].
  intros i r. apply update_out. cbn [counts length].
  apply norm_index_out. cbn. lia.
Qed.

Lemma construction_without_arms_witness :
  new_UCB1 (-2) = Ok {| counts := []; values := [] |}
  /\ select_arm {| counts := []; values := [] |}
     = (Raise ValueError, {| counts := []; values := [] |})
  /\ forall i r, update i r {| counts := []; values := [] |}
                 = (Raise IndexError, {| counts := []; values := [] |}).
Proof. apply (construction_without_arms (-2)). lia. Defined.

(** C9 as stated fails: constructing an agent with zero arms succeeds. *)
Lemma construction_zero_arms_succeeds :
  new_UCB1 0 = Ok {| counts := []; values := [] |}
  /\ ~ exists e, new_UCB1 0 = Raise e.
Proof.
  split; [reflexivity|]. intros [e He]. discriminate He.
Qed.

(** ** Arm indices out of range *)

(** C8, as the code has it. On an agent with [K] arms, [update(i, reward)]
    with [i >= K] or [i < -K] raises [IndexError] and leaves every count
    and value as it was; an index [-K <= i < 0] is accepted and updates arm
    [K + i]. *)
Theorem update_index_range (self : UCB1) (i : Z) (r : R) :
  length (values self) = length (counts self) ->
  let K := Z.of_nat (length (counts self)) in
  (K <= i \/ i < - K -> update i r self = (Raise IndexError, self))
  /\ (- K <= i < 0 ->
      update i r self = update (K + i) r self
      /\ forall c, counts self !! Z.to_nat (K + i) = Some c -> c + 1 <> 0 ->
           exists final,
             update i r self = (Ok tt, final)
             /\ counts final !! Z.to_nat (K + i) = Some (c + 1)).
Proof.
  intros Hlen K. split.
  - intros Hi. apply update_out. now apply norm_index_out.
  - intros Hi.
    assert (Hk : (Z.to_nat (K + i) < length (counts self))%nat)
      by (unfold K in *; lia).
    destruct (lookup_lt_is_Some_2 _ _ Hk) as [c Hc].
    destruct (lookup_lt_is_Some_2 (values self) (Z.to_nat (K + i)))
      as [v Hv]; [now rewrite Hlen|].
    pose proof (norm_index_neg _ i Hi) as Hn. fold K in Hn.
    assert (Hp : Py.norm_index (length (counts self)) (K + i)
                 = Some (Z.to_nat (K + i))).
    { rewrite <- (Z2Nat.id (K + i)) at 1 by lia. now apply norm_index_nat. }
    split.
    + unfold update, read_count, write_count, read_value, write_value, bind,
        get, lift, put, Py.getitem, Py.setitem.
      rewrite Hn, Hp, Hc. cbn [counts values].
      rewrite !length_insert, Hlen, Hn, Hp. reflexivity.
    + intros c' Hc' Hnz. rewrite Hc in Hc'. injection Hc' as <-.
      eexists. split.
      * apply (update_at self i _ r c v Hn Hlen Hc Hv Hnz).
      * cbn [counts]. now apply list_lookup_insert_eq.
Qed.

Lemma update_index_range_witness :
  let self := {| counts := [2; 5]; values := [1; 0]%R |} in
  (update 2 1%R self = (Raise IndexError, self))
  /\ (update (-3) 1%R self = (Raise IndexError, self))
  /\ update (-1) 1%R self = update 1 1%R self
  /\ exists final,
       update (-1) 1%R self = (Ok tt, final) /\ counts final !! 1%nat = Some 6.
Proof.
  intros self.
  destruct (update_index_range self 2 1%R eq_refl) as [H2 _].
  destruct (update_index_range self (-3) 1%R eq_refl) as [H3 _].
  destruct (update_index_range self (-1) 1%R eq_refl) as [_ H1].
  split; [apply H2; cbn; lia|]. split; [apply H3; cbn; lia|].
  destruct (H1 ltac:(cbn; lia)) as [Ha Hb].
  split; [exact Ha|]. apply (Hb 5); [reflexivity|lia].
Defined.

(** C8 as stated fails: on a fresh agent with two arms, [update(-1, 1.0)]
    raises nothing and changes the count of arm 1. *)
Lemma update_negative_index_accepted :
  exists final,
    update (-1) 1%R {| counts := [0; 0]; values := [0; 0]%R |}
    = (Ok tt, final)
    /\ counts final = [0; 1].
Proof.
  eexists. split.
  - apply (update_at {| counts := [0; 0]; values := [0; 0]%R |} (-1) 1 1%R
             0 0%R); try reflexivity. lia.
  - reflexivity.
Qed.

(** ** [ind_max]: first maximum *)

Lemma max_from_ge_init (l : list R) (m : R) : (m <= Py.max_from m l)%R.
Proof.
  revert m. induction l as [|y l IH]; intros m; cbn; [lra|].
  destruct (Rgt_dec y m) as [H|H]; specialize (IH (if Rgt_dec y m then y else m));
    destruct (Rgt_dec y m); try contradiction; lra.
Qed.

Lemma max_from_ge_elem (l : list R) (m x : R) :
  In x l -> (x <= Py.max_from m l)%R.
Proof.
  revert m. induction l as [|y l IH]; intros m; cbn; [tauto|].
  intros [->|Hin]; [|now apply IH].
  pose proof (max_from_ge_init l (if Rgt_dec x m then x else m)) as H.
  destruct (Rgt_dec x m); lra.
Qed.

Lemma max_from_in (l : list R) (m : R) :
  Py.max_from m l = m \/ In (Py.max_from m l) l.
Proof.
  revert m. induction l as [|y l IH]; intros m; cbn; [now left|].
  destruct (IH (if Rgt_dec y m then y else m)) as [E|Hin]; [|now right; right].
  rewrite E. destruct (Rgt_dec y m); [right; now left|now left].
Qed.

Lemma index_from_first (l : list R) (m : R) :
  In m l ->
  forall i, exists k,
    Py.index_from m l i = Ok (i + k)%nat
    /\ l !! k = Some m
    /\ forall j x, (j < k)%nat -> l !! j = Some x -> x <> m.
Proof.
  induction l as [|y l IH]; intros Hin i; [destruct Hin|].
  cbn [Py.index_from]. destruct (Req_dec_T y m) as [->|Hne].
  - exists 0%nat. rewrite Nat.add_0_r. repeat split. intros j x Hj. lia.
  - destruct Hin as [->|Hin]; [contradiction|].
    destruct (IH Hin (S i)) as (k & E & Hk & Hlow).
    exists (S k). rewrite E. split; [f_equal; lia|]. split; [exact Hk|].
    intros [|j] x Hj Hx; cbn in Hx.
    + now injection Hx as <-.
    + apply (Hlow j x); [lia|exact Hx].
Qed.

Lemma ind_max_first (l : list R) :
  l <> [] ->
  exists k m,
    ind_max l = Ok k
    /\ l !! k = Some m
    /\ (forall j x, l !! j = Some x -> (x <= m)%R)
    /\ (forall j x, (j < k)%nat -> l !! j = Some x -> (x < m)%R).
Proof.
  destruct l as [|x0 l]; [contradiction|]. intros _.
  unfold ind_max. cbn [Py.max rbind]. set (m := Py.max_from x0 l).
  assert (Hall : forall x, In x (x0 :: l) -> (x <= m)%R).
  { intros x [<-|Hin]; [apply max_from_ge_init|now apply max_from_ge_elem]. }
  assert (Hin : In m (x0 :: l)).
  { destruct (max_from_in l x0) as [E|H]; [left; now rewrite <- E|now right]. }
  destruct (index_from_first (x0 :: l) m Hin 0) as (k & E & Hk & Hlow).
  exists k, m. unfold Py.index. rewrite E. split; [reflexivity|].
  split; [exact Hk|]. split.
  - intros j x Hx. apply Hall. apply list_elem_of_In.
    eapply list_elem_of_lookup_2; eauto.
  - intros j x Hj Hx.
    assert (x <= m)%R.
    { apply Hall. apply list_elem_of_In. eapply list_elem_of_lookup_2; eauto. }
    pose proof (Hlow j x Hj Hx). lra.
Qed.

Example ind_max_tie : ind_max [1; 3; 3; 2]%R = Ok 1%nat.
Proof.
  unfold ind_max. cbn [Py.max Py.max_from rbind].
  repeat (destruct (Rgt_dec _ _); try lra).
  unfold Py.index. cbn [Py.index_from].
  repeat (destruct (Req_dec_T _ _); try lra). reflexivity.
Qed.

(** ** The exploration bonus over the reals *)

Lemma ln_lower (t : R) : (0 < t)%R -> (1 - / t <= ln t)%R.
Proof.
  intros Ht. pose proof (exp_ineq1_le (- ln t)) as H.
  rewrite <- ln_Rinv in H by exact Ht.
  rewrite exp_ln in H by (now apply Rinv_0_lt_compat).
  rewrite ln_Rinv in H by exact Ht. lra.
Qed.

Lemma ln_succ (t : R) : (0 < t)%R -> (ln (t + 1) < ln t + / t)%R.
Proof.
  intros Ht. pose proof (Rinv_0_lt_compat t Ht) as Hi.
  replace (t + 1)%R with (t * (1 + / t))%R by (field; lra).
  rewrite ln_mult by lra.
  assert (ln (1 + / t) < / t)%R; [|lra].
  rewrite <- (ln_exp (/ t)) at 2.
  apply ln_increasing; [lra|]. apply exp_ineq1. lra.
Qed.

Lemma ln_nonneg (t : R) : (1 <= t)%R -> (0 <= ln t)%R.
Proof.
  intros Ht. pose proof (ln_lower t ltac:(lra)) as H.
  assert (/ t <= 1)%R; [|lra].
  rewrite <- Rinv_1. apply Rinv_le_contravar; lra.
Qed.

Lemma bonus_step (t x : R) :
  (1 <= x)%R -> (x + 1 <= t)%R -> (ln (t + 1) / (x + 1) < ln t / x)%R.
Proof.
  intros Hx Ht.
  pose proof (ln_succ t ltac:(lra)) as Ha.
  pose proof (ln_lower t ltac:(lra)) as Hb.
  pose proof (Rinv_0_lt_compat t ltac:(lra)) as Hi.
  assert (Hxi : (/ t * (x + 1) <= 1)%R).
  { assert (H : (/ t * (x + 1) <= / t * t)%R)
      by (apply Rmult_le_compat_l; lra).
    now rewrite Rinv_l in H by lra. }
  assert (Hc : (ln (t + 1) * x < (ln t + / t) * x)%R)
    by (apply Rmult_lt_compat_r; lra).
  replace (ln (t + 1) / (x + 1))%R
    with (ln (t + 1) * x * / (x * (x + 1)))%R by (field; lra).
  replace (ln t / x)%R
    with (ln t * (x + 1) * / (x * (x + 1)))%R by (field; lra).
  apply Rmult_lt_compat_r; [apply Rinv_0_lt_compat; nra|]. lra.
Qed.

Lemma bonus_decreasing (others c : Z) (d : nat) :
  1 <= others -> 1 <= c ->
  (ln (IZR (others + (c + 1 + Z.of_nat d))) / IZR (c + 1 + Z.of_nat d)
   < ln (IZR (others + c)) / IZR c)%R.
Proof.
  intros Ho Hc.
  assert (Hstep : forall c0 : Z, 1 <= c0 ->
            (ln (IZR (others + (c0 + 1))) / IZR (c0 + 1)
             < ln (IZR (others + c0)) / IZR c0)%R).
  { intros c0 Hc0. rewrite Z.add_assoc, !(plus_IZR _ 1).
    apply bonus_step; [now apply IZR_le|].
    rewrite <- plus_IZR. apply IZR_le. lia. }
  induction d as [|d IH].
  - rewrite Z.add_0_r. now apply Hstep.
  - eapply Rlt_trans; [|exact IH].
    replace (c + 1 + Z.of_nat (S d)) with (c + 1 + Z.of_nat d + 1) by lia.
    apply Hstep. lia.
Qed.

Lemma ucb_score_decreasing (others c c' : Z) (v : R) :
  1 <= others -> 1 <= c -> c < c' ->
  (ucb_score (others + c') c' v < ucb_score (others + c) c v)%R.
Proof.
  intros Ho Hc Hlt. unfold ucb_score.
  apply Rplus_lt_compat_l.
  pose proof (bonus_decreasing others c (Z.to_nat (c' - c - 1)) Ho Hc) as H.
  replace (c + 1 + Z.of_nat (Z.to_nat (c' - c - 1))) with c' in H by lia.
  assert (Hc' : (0 < IZR c')%R) by (apply IZR_lt; lia).
  assert (Hl : (0 <= ln (IZR (others + c')))%R)
    by (apply ln_nonneg, IZR_le; lia).
  apply sqrt_lt_1_alt. split.
  - unfold Rdiv. apply Rmult_le_pos; [lra|].
    apply Rlt_le. now apply Rinv_0_lt_compat.
  - unfold Rdiv in *. rewrite !Rmult_assoc. lra.
Qed.

(** ** Selection once every arm has been tried *)

Lemma ucb_loop_seq (self : UCB1) (total : Z) (n : nat) :
  length (values self) = length (counts self) ->
  Forall (fun c => 1 <= c) (counts self) ->
  1 <= total ->
  forall (s : nat) (ucb : list R),
    (s + n <= length (counts self))%nat ->
    length ucb = length (counts self) ->
    exists ucb',
      ucb_loop (seq s n) self total ucb = Ok ucb'
      /\ length ucb' = length ucb
      /\ (forall j c v, (s <= j < s + n)%nat ->
            counts self !! j = Some c -> values self !! j = Some v ->
            ucb' !! j = Some (ucb_score total c v))
      /\ (forall j, (j < s)%nat -> ucb' !! j = ucb !! j).
Proof.
  intros Hlen Hall Htot.
  assert (HT : (1 <= IZR total)%R) by now apply IZR_le.
  induction n as [|n IH]; intros s ucb Hs Hu.
  - exists ucb. split; [reflexivity|]. split; [reflexivity|].
    split; [intros; lia|reflexivity].
  - cbn [seq ucb_loop]. unfold Py.log.
    destruct (Rle_dec (IZR total) 0) as [Hle|_]; [lra|]. cbn [rbind].
    destruct (lookup_lt_is_Some_2 (counts self) s ltac:(lia)) as [c Hc].
    destruct (lookup_lt_is_Some_2 (values self) s ltac:(lia)) as [v Hv].
    assert (Hc1 : 1 <= c) by (rewrite Forall_lookup in Hall; eauto).
    assert (HcR : (1 <= IZR c)%R) by now apply IZR_le.
    rewrite (getitem_nat _ _ _ Hc). cbn [rbind]. unfold Py.div.
    destruct (Req_dec_T (IZR c) 0) as [E|_]; [lra|]. cbn [rbind].
    unfold Py.sqrt.
    destruct (Rlt_dec (2 * ln (IZR total) / IZR c) 0) as [Hneg|_].
    { exfalso. pose proof (ln_nonneg _ HT) as Hl.
      assert (0 <= 2 * ln (IZR total) / IZR c)%R; [|lra].
      unfold Rdiv. apply Rmult_le_pos; [lra|].
      apply Rlt_le, Rinv_0_lt_compat. lra. }
    cbn [rbind]. rewrite (getitem_nat _ _ _ Hv). cbn [rbind].
    rewrite setitem_nat by lia. cbn [rbind].
    set (ucb1 := <[s := _]> ucb).
    destruct (IH (S s) ucb1) as (ucb' & E & Hl' & Hin & Hout);
      [lia|unfold ucb1; now rewrite length_insert|].
    exists ucb'. split; [exact E|]. split.
    { rewrite Hl'. unfold ucb1. now rewrite length_insert. }
    split.
    + intros j cj vj Hj Hcj Hvj.
      destruct (decide (j = s)) as [->|Hne].
      * rewrite Hout by lia. unfold ucb1.
        rewrite list_lookup_insert_eq by lia.
        rewrite Hc in Hcj. rewrite Hv in Hvj.
        injection Hcj as <-. injection Hvj as <-. reflexivity.
      * apply Hin; [lia|exact Hcj|exact Hvj].
    + intros j Hj. rewrite Hout by lia. unfold ucb1.
      apply list_lookup_insert_ne. lia.
Qed.

Lemma ucb_values_scores (self : UCB1) :
  counts self <> [] ->
  length (values self) = length (counts self) ->
  Forall (fun c => 1 <= c) (counts self) ->
  exists u,
    ucb_values self = Ok u
    /\ length u = length (counts self)
    /\ forall j c v,
         counts self !! j = Some c -> values self !! j = Some v ->
         u !! j = Some (ucb_score (Py.sum (counts self)) c v).
Proof.
  intros Hne Hlen Hall. unfold ucb_values. rewrite range_of_nat.
  assert (Htot : 1 <= Py.sum (counts self)).
  { pose proof (sum_lower _ 1 Hall).
    destruct (counts self); [contradiction|cbn [length] in *; lia]. }
  destruct (ucb_loop_seq self (Py.sum (counts self)) (length (counts self))
              Hlen Hall Htot 0
              (map (fun _ => 0%R) (seq 0 (length (counts self)))))
    as (u & E & Hl & Hin & _).
  { lia. }
  { now rewrite length_map, length_seq. }
  exists u. split; [exact E|]. split.
  { now rewrite Hl, length_map, length_seq. }
  intros j c v Hc Hv. apply Hin; auto.
  apply lookup_lt_Some in Hc. lia.
Qed.

Lemma cold_loop_none (cs : list Z) :
  Forall (fun c => 1 <= c) cs ->
  cold_loop (seq 0 (length cs)) cs = Ok None.
Proof.
  intros Hall.
  destruct (cold_loop_seq (length cs) 0 cs ltac:(lia))
    as [(arm & _ & _ & Hz & _)|[E _]]; [|exact E].
  rewrite Forall_lookup in Hall. specialize (Hall _ _ Hz). lia.
Qed.

(** ** Confidence decay *)

(** C5, as the code has it. With at least two arms and every count [>= 1],
    raising the count of arm [i] while its value and the other counts stay
    as they are strictly lowers the score the code computes for arm [i]
    (the total includes the raised count). *)
Theorem confidence_decay (self : UCB1) (i : nat) (c c' : Z) :
  length (values self) = length (counts self) ->
  Forall (fun c => 1 <= c) (counts self) ->
  (2 <= length (counts self))%nat ->
  counts self !! i = Some c ->
  c < c' ->
  let self' := {| counts := <[i := c']> (counts self);
                  values := values self |} in
  exists u u' s s',
    ucb_values self = Ok u /\ ucb_values self' = Ok u'
    /\ u !! i = Some s /\ u' !! i = Some s'
    /\ (s' < s)%R.
Proof.
  intros Hlen Hall H2 Hc Hlt self'.
  pose proof (lookup_lt_Some _ _ _ Hc) as Li.
  assert (Hc1 : 1 <= c) by (rewrite Forall_lookup in Hall; eauto).
  destruct (lookup_lt_is_Some_2 (values self) i ltac:(lia)) as [v Hv].
  assert (Hne : counts self <> [])
    by (intros E; rewrite E in H2; cbn in H2; lia).
  destruct (ucb_values_scores self Hne Hlen Hall) as (u & Eu & _ & Hu).
  assert (Hall' : Forall (fun c => 1 <= c) (counts self'))
    by (apply Forall_insert; [exact Hall|lia]).
  assert (Hne' : counts self' <> []).
  { intros E. apply (f_equal length) in E. cbn in E.
    rewrite length_insert in E. lia. }
  assert (Hlen' : length (values self') = length (counts self'))
    by (cbn; now rewrite length_insert).
  destruct (ucb_values_scores self' Hne' Hlen' Hall') as (u' & Eu' & _ & Hu').
  assert (Hc' : counts self' !! i = Some c')
    by (cbn; now apply list_lookup_insert_eq).
  exists u, u', (ucb_score (Py.sum (counts self)) c v),
    (ucb_score (Py.sum (counts self')) c' v).
  split; [exact Eu|]. split; [exact Eu'|].
  split; [exact (Hu i c v Hc Hv)|]. split; [exact (Hu' i c' v Hc' Hv)|].
  set (others := Py.sum (counts self) - c).
  assert (Ho : 1 <= others).
  { pose proof (sum_insert _ i c 1 Hc) as E1.
    pose proof (sum_lower (<[i := 1]> (counts self)) 1
                  ltac:(apply Forall_insert; [exact Hall|lia])) as E2.
    rewrite length_insert in E2. unfold others. lia. }
  replace (Py.sum (counts self')) with (others + c')
    by (unfold self'; cbn [counts]; rewrite (sum_insert _ i c c' Hc);
        unfold others; lia).
  replace (Py.sum (counts self)) with (others + c) by (unfold others; lia).
  now apply ucb_score_decreasing.
Qed.

Lemma confidence_decay_witness :
  exists u u' s s',
    ucb_values {| counts := [2; 3]; values := [1; 0]%R |} = Ok u
    /\ ucb_values {| counts := [5; 3]; values := [1; 0]%R |} = Ok u'
    /\ u !! 0%nat = Some s /\ u' !! 0%nat = Some s'
    /\ (s' < s)%R.
Proof.
  apply (confidence_decay {| counts := [2; 3]; values := [1; 0]%R |}
           0%nat 2 5).
  - reflexivity.
  - repeat constructor; lia.
  - cbn. lia.
  - reflexivity.
  - lia.
Defined.

(** C5 as stated fails on an agent with a single arm: raising its count
    from 1 to 2 raises its score from 0 to [sqrt (ln 2)]. *)
Lemma confidence_decay_single_arm_fails :
  exists s s',
    ucb_values {| counts := [1]; values := [0]%R |} = Ok [s]
    /\ ucb_values {| counts := [2]; values := [0]%R |} = Ok [s']
    /\ (s < s')%R.
Proof.
  assert (H : forall c : Z, 1 <= c ->
            ucb_values {| counts := [c]; values := [0]%R |}
            = Ok [ucb_score c c 0]).
  { intros c Hc.
    destruct (ucb_values_scores {| counts := [c]; values := [0]%R |})
      as (u & Eu & Hl & Hu);
      [discriminate|reflexivity|repeat constructor; exact Hc|].
    specialize (Hu 0%nat c 0%R eq_refl eq_refl).
    destruct u as [|x [|y u]]; try discriminate.
    cbn in Hu. injection Hu as ->. rewrite Eu.
    unfold Py.sum. cbn [counts fold_left]. now rewrite Z.add_0_l. }
  exists (ucb_score 1 1 0), (ucb_score 2 2 0).
  split; [apply H; lia|]. split; [apply H; lia|].
  unfold ucb_score. rewrite ln_1.
  replace (2 * 0 / 1)%R with 0%R by field. rewrite sqrt_0.
  apply Rplus_lt_compat_l. apply sqrt_lt_R0.
  pose proof ln_lt_2. lra.
Qed.

(** ** The select/update cycle never raises on a well-formed agent *)

Lemma select_arm_total (self : UCB1) :
  well_formed self -> counts self <> [] ->
  exists arm,
    select_arm self = (Ok arm, self) /\ (arm < length (counts self))%nat.
Proof.
  intros [Hlen Hpos] Hne.
  destruct (cold_loop_seq (length (counts self)) 0 (counts self) ltac:(lia))
    as [(arm & E & Hr & _ & _)|[_ Hnz]].
  - exists arm. rewrite select_arm_eq, E. split; [reflexivity|lia].
  - assert (Hall : Forall (fun c => 1 <= c) (counts self)).
    { rewrite Forall_lookup in *. intros j c Hc.
      pose proof (Hpos j c Hc). pose proof (lookup_lt_Some _ _ _ Hc).
      pose proof (Hnz j c ltac:(lia) Hc). lia. }
    destruct (ucb_values_scores self Hne Hlen Hall) as (u & Eu & Hl & _).
    assert (Hune : u <> []).
    { intros ->. destruct (counts self); [contradiction|discriminate]. }
    destruct (ind_max_first u Hune) as (k & m & Ek & Hk & _).
    exists k. rewrite select_arm_eq, cold_loop_none by exact Hall.
    rewrite Eu. cbn [rbind]. rewrite Ek. split; [reflexivity|].
    apply lookup_lt_Some in Hk. lia.
Qed.

Lemma update_total (self : UCB1) (arm : nat) (r : R) :
  well_formed self -> (arm < length (counts self))%nat ->
  exists self',
    update (Z.of_nat arm) r self = (Ok tt, self')
    /\ well_formed self'
    /\ length (counts self') = length (counts self)
    /\ Py.sum (counts self') = Py.sum (counts self) + 1.
Proof.
  intros [Hlen Hpos] Harm.
  destruct (lookup_lt_is_Some_2 (counts self) arm Harm) as [c Hc].
  destruct (lookup_lt_is_Some_2 (values self) arm ltac:(lia)) as [v Hv].
  assert (Hc0 : 0 <= c) by (rewrite Forall_lookup in Hpos; eauto).
  eexists. split; [apply (update_nat self arm r c v Hc Hv Hlen); lia|].
  unfold well_formed. cbn [counts values]. split; [split|split].
  - now rewrite !length_insert.
  - apply Forall_insert; [exact Hpos|lia].
  - apply length_insert.
  - rewrite (sum_insert _ _ _ _ Hc). lia.
Qed.

Lemma sum_replicate_0 (n : nat) : Py.sum (replicate n 0) = 0.
Proof.
  induction n as [|n IH]; [reflexivity|].
  cbn [replicate]. rewrite sum_cons, IH. reflexivity.
Qed.

Lemma fresh_well_formed (n : nat) :
  well_formed {| counts := replicate n 0; values := replicate n 0%R |}.
Proof.
  split; cbn.
  - now rewrite !length_replicate.
  - apply Forall_replicate. lia.
Qed.

(** ** The environment never raises *)

Lemma bind_ok {S A B} (c : M S A) (k : A -> M S B) (s s' : S) (a : A) :
  c s = (Ok a, s') -> bind c k s = k a s'.
Proof. intros H. unfold bind. now rewrite H. Qed.

Lemma call_ok {A} (m : M UCB1 A) (b b' : UCB1) (a : A) (g : rng) :
  m b = (Ok a, b') -> call m b g = (Ok (a, b'), g).
Proof. intros H. unfold call. now rewrite H. Qed.

Lemma new_SimpleEmergency_total (g : rng) :
  exists e, new_SimpleEmergency g = (Ok e, advance g).
Proof.
  unfold new_SimpleEmergency, bind, random_choice, ret, emergency_type.
  cbn [length].
  pose proof (Nat.mod_upper_bound (raws g (cursor g)) 2 ltac:(lia)) as Hlt.
  destruct (raws g (cursor g) mod 2)%nat as [|[|k]]; cbn; eauto. lia.
Qed.

Lemma apply_treatment_total (e : SimpleEmergency) (t : string) (g : rng) :
  exists o g', apply_treatment e t g = (Ok o, g').
Proof.
  unfold apply_treatment, draw_gt, bind, random_random, ret.
  repeat match goal with
         | |- context [if ?b then _ else _] => destruct b
         end; eauto.
Qed.

(** ** Training *)

Lemma train_step_total (arm_labels : list string) (b : UCB1) (g : rng) :
  well_formed b -> arm_labels <> [] ->
  length (counts b) = length arm_labels ->
  exists b' g',
    train_step arm_labels b g = (Ok b', g')
    /\ well_formed b'
    /\ length (counts b') = length (counts b)
    /\ Py.sum (counts b') = Py.sum (counts b) + 1.
Proof.
  intros Hwf Hne Hlen.
  assert (Hcne : counts b <> []).
  { intros E. rewrite E in Hlen. destruct arm_labels; [auto|discriminate]. }
  destruct (new_SimpleEmergency_total g) as [e He].
  destruct (select_arm_total b Hwf Hcne) as (arm & Hsel & Harm).
  destruct (lookup_lt_is_Some_2 arm_labels arm ltac:(lia)) as [label Hlab].
  destruct (apply_treatment_total e label (advance g)) as (o & g' & Ho).
  destruct (update_total b arm (if truthy o then 1 else 0)%R Hwf Harm)
    as (b' & Hup & Hwf' & Hlen' & Hsum).
  exists b', g'. split; [|auto].
  unfold train_step.
  rewrite (bind_ok _ _ _ _ _ He).
  rewrite (bind_ok _ _ _ _ _ (call_ok _ _ _ _ _ Hsel)). cbn [fst snd].
  unfold lift at 1, bind at 1. rewrite (getitem_nat _ _ _ Hlab).
  rewrite (bind_ok _ _ _ _ _ Ho).
  rewrite (bind_ok _ _ _ _ _ (call_ok _ _ _ _ _ Hup)). reflexivity.
Qed.

Lemma train_loop_total (arm_labels : list string) (iters : list nat) :
  arm_labels <> [] ->
  forall (b : UCB1) (g : rng),
    well_formed b ->
    length (counts b) = length arm_labels ->
    exists final g',
      train_loop iters arm_labels b g = (Ok final, g')
      /\ well_formed final
      /\ length (counts final) = length arm_labels
      /\ Py.sum (counts final) = Py.sum (counts b) + Z.of_nat (length iters).
Proof.
  intros Hne. induction iters as [|i rest IH]; intros b g Hwf Hlen.
  - exists b, g. cbn. repeat split; try apply Hwf; auto. lia.
  - destruct (train_step_total arm_labels b g Hwf Hne Hlen)
      as (b1 & g1 & Hstep & Hwf1 & Hlen1 & Hsum1).
    destruct (IH b1 g1 Hwf1 ltac:(congruence))
      as (final & g' & Hrun & Hwf' & Hlen' & Hsum').
    exists final, g'. cbn [train_loop]. rewrite (bind_ok _ _ _ _ _ Hstep).
    split; [exact Hrun|]. split; [exact Hwf'|]. split; [exact Hlen'|].
    cbn [length]. lia.
Qed.

(** C10. For [trials >= 0] and a non-empty list of arm labels,
    [train_UCB1(trials, arm_labels)] returns an agent, with whatever the
    random module draws; its counts sum to [trials], none is negative, and
    it has as many arms as there are labels. *)
Theorem train_UCB1_counts (trials : Z) (arm_labels : list string) (g : rng) :
  0 <= trials ->
  arm_labels <> [] ->
  exists final g',
    train_UCB1 trials arm_labels g = (Ok final, g')
    /\ Py.sum (counts final) = trials
    /\ Forall (fun c => 0 <= c) (counts final)
    /\ length (counts final) = length arm_labels
    /\ length (values final) = length arm_labels.
Proof.
  intros Ht Hne. unfold train_UCB1.
  rewrite new_UCB1_eq, Nat2Z.id.
  set (fresh := {| counts := replicate (length arm_labels) 0;
                   values := replicate (length arm_labels) 0%R |}).
  destruct (train_loop_total arm_labels (Py.range trials) Hne fresh g)
    as (final & g' & Hrun & Hwf & Hlen & Hsum).
  { apply fresh_well_formed. }
  { unfold fresh. cbn. apply length_replicate. }
  exists final, g'. unfold lift at 1, bind at 1.
  split; [exact Hrun|]. split; [|split; [apply Hwf|split; [exact Hlen|]]].
  - rewrite Hsum. unfold fresh, Py.range. cbn [counts].
    rewrite sum_replicate_0, length_seq. lia.
  - destruct Hwf as [Hv _]. congruence.
Qed.

Lemma train_UCB1_counts_witness :
  exists final g',
    train_UCB1 1000 ["basic"; "advanced"]%string
      {| floats := fun _ => (1 / 2)%R; raws := fun n => n; cursor := 0 |}
    = (Ok final, g')
    /\ Py.sum (counts final) = 1000
    /\ Forall (fun c => 0 <= c) (counts final)
    /\ length (counts final) = 2%nat
    /\ length (values final) = 2%nat.
Proof.
  apply (train_UCB1_counts 1000 ["basic"; "advanced"]%string); [lia|].
  discriminate.
Defined.

(** ** Comparison with the alternating baseline *)

Lemma bind_inv {S A B} (c : M S A) (k : A -> M S B) (s s2 : S) (b : B) :
  bind c k s = (Ok b, s2) ->
  exists a s1, c s = (Ok a, s1) /\ k a s1 = (Ok b, s2).
Proof.
  unfold bind. destruct (c s) as [[a|e] s1]; [eauto|discriminate].
Qed.

Lemma compare_step_scores (treatments : list string) (i : nat)
    (b b' : scoreboard) (g g' : rng) :
  compare_step treatments i b g = (Ok b', g') ->
  bandit_score b <= bandit_score b' <= bandit_score b + 1
  /\ AB_score b <= AB_score b' <= AB_score b + 1.
Proof.
  unfold compare_step. intros H.
  repeat (apply bind_inv in H as (? & ? & _ & H)).
  unfold ret in H. injection H as <- _. cbn [bandit_score AB_score].
  split; match goal with
         | |- context [if ?c then _ else _] => destruct c
         end; lia.
Qed.

Lemma compare_step_total (treatments : list string) (i : nat)
    (b : scoreboard) (g : rng) :
  well_formed (bandit b) ->
  length treatments = 2%nat ->
  length (counts (bandit b)) = 2%nat ->
  exists b' g',
    compare_step treatments i b g = (Ok b', g')
    /\ well_formed (bandit b')
    /\ length (counts (bandit b')) = 2%nat.
Proof.
  intros Hwf Ht Hlen.
  destruct treatments as [|t0 [|t1 [|t2 ts]]]; try discriminate.
  assert (Hcne : counts (bandit b) <> [])
    by (intros E; rewrite E in Hlen; discriminate).
  destruct (new_SimpleEmergency_total g) as [e He].
  destruct (select_arm_total (bandit b) Hwf Hcne) as (arm & Hsel & Harm).
  destruct (lookup_lt_is_Some_2 [t0; t1] arm ltac:(cbn [length]; lia))
    as [label Hlab].
  destruct (apply_treatment_total e label (advance g)) as (o & g1 & Ho).
  destruct (update_total (bandit b) arm 1%R Hwf Harm)
    as (b1 & Hup1 & Hwf1 & Hlen1 & _).
  destruct (update_total (bandit b) arm 0%R Hwf Harm)
    as (b0 & Hup0 & Hwf0 & Hlen0 & _).
  destruct (apply_treatment_total e t0 g1) as (o0 & g20 & Ho0).
  destruct (apply_treatment_total e t1 g1) as (o1 & g21 & Ho1).
  unfold compare_step.
  rewrite (bind_ok _ _ _ _ _ He).
  rewrite (bind_ok _ _ _ _ _ (call_ok _ _ _ _ _ Hsel)). cbn [fst snd].
  unfold lift at 1, bind at 1. rewrite (getitem_nat _ _ _ Hlab).
  rewrite (bind_ok _ _ _ _ _ Ho).
  destruct (truthy o).
  - rewrite (bind_ok _ _ _ _ _ (call_ok _ _ _ _ _ Hup1)). cbn [fst snd].
    destruct (Z.of_nat i mod 2 =? 0); unfold lift at 1, bind at 1;
      [change (Py.getitem [t0; t1] 0) with (Ok t0); cbv beta iota;
       rewrite (bind_ok _ _ _ _ _ Ho0)
      |change (Py.getitem [t0; t1] 1) with (Ok t1); cbv beta iota;
       rewrite (bind_ok _ _ _ _ _ Ho1)];
      eexists _, _; (split; [reflexivity|]); cbn [bandit];
      (split; [exact Hwf1|congruence]).
  - rewrite (bind_ok _ _ _ _ _ (call_ok _ _ _ _ _ Hup0)). cbn [fst snd].
    destruct (Z.of_nat i mod 2 =? 0); unfold lift at 1, bind at 1;
      [change (Py.getitem [t0; t1] 0) with (Ok t0); cbv beta iota;
       rewrite (bind_ok _ _ _ _ _ Ho0)
      |change (Py.getitem [t0; t1] 1) with (Ok t1); cbv beta iota;
       rewrite (bind_ok _ _ _ _ _ Ho1)];
      eexists _, _; (split; [reflexivity|]); cbn [bandit];
      (split; [exact Hwf0|congruence]).
Qed.

Lemma compare_loop_total (treatments : list string) (iters : list nat) :
  length treatments = 2%nat ->
  forall (b : scoreboard) (g : rng),
    well_formed (bandit b) ->
    length (counts (bandit b)) = 2%nat ->
    exists final g',
      compare_loop iters treatments b g = (Ok final, g')
      /\ bandit_score b <= bandit_score final
         <= bandit_score b + Z.of_nat (length iters)
      /\ AB_score b <= AB_score final
         <= AB_score b + Z.of_nat (length iters).
Proof.
  intros Ht. induction iters as [|i rest IH]; intros b g Hwf Hlen.
  - exists b, g. cbn. split; [reflexivity|lia].
  - destruct (compare_step_total treatments i b g Hwf Ht Hlen)
      as (b1 & g1 & Hstep & Hwf1 & Hlen1).
    pose proof (compare_step_scores _ _ _ _ _ _ Hstep) as [Hb Ha].
    destruct (IH b1 g1 Hwf1 Hlen1) as (final & g' & Hrun & Hb' & Ha').
    exists final, g'. cbn [compare_loop]. rewrite (bind_ok _ _ _ _ _ Hstep).
    split; [exact Hrun|]. cbn [length]. lia.
Qed.

(** C7. With two treatments and [trials >= 0], the comparison returns,
    with whatever the random module draws, a pair of integers
    [(bandit_score, AB_score)], each between 0 and [trials]; every
    iteration of its loop leaves each counter as it was or adds one to it.
    [bandit_vs_AB()] itself returns two integers between 0 and 1000. *)
Theorem comparison_bounded :
  (forall (trials : Z) (treatments : list string) (g : rng),
      0 <= trials ->
      length treatments = 2%nat ->
      exists bandit_successes baseline_successes g',
        bandit_vs_AB_with trials treatments g
        = (Ok (bandit_successes, baseline_successes), g')
        /\ 0 <= bandit_successes <= trials
        /\ 0 <= baseline_successes <= trials)
  /\ (forall (treatments : list string) (i : nat) (b b' : scoreboard)
             (g g' : rng),
        compare_step treatments i b g = (Ok b', g') ->
        (bandit_score b' = bandit_score b
         \/ bandit_score b' = bandit_score b + 1)
        /\ (AB_score b' = AB_score b \/ AB_score b' = AB_score b + 1))
  /\ (forall g : rng,
        exists bandit_successes baseline_successes g',
          bandit_vs_AB g = (Ok (bandit_successes, baseline_successes), g')
          /\ 0 <= bandit_successes <= 1000
          /\ 0 <= baseline_successes <= 1000).
Proof.
  assert (Hrun : forall (trials : Z) (treatments : list string) (g : rng),
      0 <= trials ->
      length treatments = 2%nat ->
      exists bandit_successes baseline_successes g',
        bandit_vs_AB_with trials treatments g
        = (Ok (bandit_successes, baseline_successes), g')
        /\ 0 <= bandit_successes <= trials
        /\ 0 <= baseline_successes <= trials).
  { intros trials treatments g Htr Ht. unfold bandit_vs_AB_with.
    rewrite new_UCB1_eq, Nat2Z.id, Ht.
    unfold lift at 1, bind at 1.
    destruct (compare_loop_total treatments (Py.range trials) Ht
                {| bandit := {| counts := replicate 2 0;
                                values := replicate 2 0%R |};
                   bandit_score := 0; AB_score := 0 |} g)
      as (final & g' & Hloop & Hb & Ha);
      [apply fresh_well_formed|reflexivity|].
    exists (bandit_score final), (AB_score final), g'.
    rewrite (bind_ok _ _ _ _ _ Hloop). split; [reflexivity|].
    unfold Py.range in Hb, Ha. rewrite length_seq in Hb, Ha.
    cbn [bandit_score AB_score] in Hb, Ha. lia. }
  split; [exact Hrun|]. split.
  - intros treatments i b b' g g' Hstep.
    pose proof (compare_step_scores _ _ _ _ _ _ Hstep). lia.
  - intros g. apply Hrun; [lia|reflexivity].
Qed.

Lemma comparison_bounded_witness :
  exists bandit_successes baseline_successes g',
    bandit_vs_AB_with 7 ["basic"; "advanced"]%string
      {| floats := fun _ => (7 / 10)%R; raws := fun n => n; cursor := 0 |}
    = (Ok (bandit_successes, baseline_successes), g')
    /\ 0 <= bandit_successes <= 7
    /\ 0 <= baseline_successes <= 7.
Proof.
  apply (proj1 comparison_bounded 7 ["basic"; "advanced"]%string);
    [lia|reflexivity].
Defined.

(** ** More on [update] *)

Lemma update_run (self : UCB1) (k : nat) (r : R) :
  well_formed self -> (k < length (counts self))%nat ->
  exists c v,
    counts self !! k = Some c /\ values self !! k = Some v /\ 0 <= c
    /\ update (Z.of_nat k) r self =
       (Ok tt,
        {| counts := <[k := c + 1]> (counts self);
           values := <[k := (IZR (c + 1 - 1) / IZR (c + 1) * v
                             + 1 / IZR (c + 1) * r)%R]> (values self) |}).
Proof.
  intros [Hlen Hpos] Hk.
  destruct (lookup_lt_is_Some_2 (counts self) k Hk) as [c Hc].
  destruct (lookup_lt_is_Some_2 (values self) k ltac:(lia)) as [v Hv].
  assert (Hc0 : 0 <= c) by (rewrite Forall_lookup in Hpos; eauto).
  exists c, v. repeat (split; [assumption|]).
  apply update_nat; auto. lia.
Qed.

(** X1. On a well-formed agent, [update] of an arm in range returns, adds
    one to that arm's count, and leaves the number of arms and the count
    and value of every other arm as they were. *)
Theorem update_frame (self : UCB1) (k : nat) (r : R) :
  well_formed self -> (k < length (counts self))%nat ->
  exists self' c,
    update (Z.of_nat k) r self = (Ok tt, self')
    /\ counts self !! k = Some c
    /\ counts self' !! k = Some (c + 1)
    /\ length (counts self') = length (counts self)
    /\ length (values self') = length (values self)
    /\ forall j, j <> k ->
         counts self' !! j = counts self !! j
         /\ values self' !! j = values self !! j.
Proof.
  intros Hwf Hk.
  destruct (update_run self k r Hwf Hk) as (c & v & Hc & Hv & _ & Hup).
  eexists _, c. split; [exact Hup|]. cbn [counts values].
  split; [exact Hc|]. split; [now apply list_lookup_insert_eq|].
  split; [apply length_insert|]. split; [apply length_insert|].
  intros j Hj. split; apply list_lookup_insert_ne; congruence.
Qed.

Lemma update_frame_witness :
  exists self' c,
    update (Z.of_nat 1) 1%R {| counts := [2; 0; 4]; values := [1; 0; 0]%R |}
    = (Ok tt, self')
    /\ [2; 0; 4] !! 1%nat = Some c
    /\ counts self' !! 1%nat = Some (c + 1)
    /\ length (counts self') = 3%nat
    /\ length (values self') = 3%nat
    /\ forall j, j <> 1%nat ->
         counts self' !! j = [2; 0; 4] !! j
         /\ values self' !! j = [1; 0; 0]%R !! j.
Proof.
  apply (update_frame {| counts := [2; 0; 4]; values := [1; 0; 0]%R |} 1 1%R).
  - split; [reflexivity|]. cbn. repeat constructor; lia.
  - cbn. lia.
Defined.

Lemma new_value_between (c : Z) (v r : R) :
  0 <= c ->
  let v' := (IZR (c + 1 - 1) / IZR (c + 1) * v + 1 / IZR (c + 1) * r)%R in
  (Rmin v r <= v' <= Rmax v r)%R /\ (c = 0 -> v' = r)
  /\ (IZR (c + 1) * v' = IZR c * v + r)%R.
Proof.
  intros Hc v'.
  assert (Hn : (0 < IZR (c + 1))%R) by (apply IZR_lt; lia).
  assert (Hc0 : (0 <= IZR c)%R) by now apply IZR_le.
  assert (Hw : (IZR (c + 1) * v' = IZR c * v + r)%R).
  { unfold v'. replace (c + 1 - 1) with c by lia. field. lra. }
  split; [|split; [|exact Hw]].
  - rewrite plus_IZR in Hw, Hn.
    pose proof (Rmin_l v r). pose proof (Rmin_r v r).
    pose proof (Rmax_l v r). pose proof (Rmax_r v r).
    clearbody v'.
    assert (IZR c * Rmin v r <= IZR c * v)%R
      by (apply Rmult_le_compat_l; lra).
    assert (IZR c * v <= IZR c * Rmax v r)%R
      by (apply Rmult_le_compat_l; lra).
    split.
    + apply Rmult_le_reg_l with (IZR c + 1)%R; [exact Hn|].
      rewrite Hw. lra.
    + apply Rmult_le_reg_l with (IZR c + 1)%R; [exact Hn|].
      rewrite Hw. lra.
  - intros ->. unfold v'. change (0 + 1 - 1) with 0. change (0 + 1) with 1.
    field.
Qed.

(** X2. Over exact arithmetic, the value [update] writes for an arm lies
    between the arm's old value and the reward; on the arm's first update
    it is the reward. *)
Theorem update_value_between (self : UCB1) (k : nat) (r : R) (c : Z) (v : R) :
  well_formed self ->
  counts self !! k = Some c ->
  values self !! k = Some v ->
  exists self' v',
    update (Z.of_nat k) r self = (Ok tt, self')
    /\ values self' !! k = Some v'
    /\ (Rmin v r <= v' <= Rmax v r)%R
    /\ (c = 0 -> v' = r).
Proof.
  intros Hwf Hc Hv. pose proof (lookup_lt_Some _ _ _ Hc) as Hk.
  destruct (update_run self k r Hwf Hk) as (c0 & v0 & Hc' & Hv' & Hc0 & Hup).
  rewrite Hc in Hc'. rewrite Hv in Hv'.
  injection Hc' as <-. injection Hv' as <-.
  destruct (new_value_between c v r Hc0) as (Hb & Hfirst & _).
  eexists _, _. split; [exact Hup|]. cbn [values].
  split; [apply list_lookup_insert_eq; destruct Hwf; lia|].
  split; [exact Hb|exact Hfirst].
Qed.

Lemma update_value_between_witness :
  exists self' v',
    update (Z.of_nat 0) 1%R {| counts := [3; 1]; values := [1 / 3; 0]%R |}
    = (Ok tt, self')
    /\ values self' !! 0%nat = Some v'
    /\ (Rmin (1 / 3) 1 <= v' <= Rmax (1 / 3) 1)%R
    /\ (3 = 0 -> v' = 1%R).
Proof.
  apply (update_value_between
           {| counts := [3; 1]; values := [1 / 3; 0]%R |} 0 1%R 3 (1 / 3)%R).
  - split; [reflexivity|]. cbn. repeat constructor; lia.
  - reflexivity.
  - reflexivity.
Defined.

Lemma weighted_insert (cs : list Z) (vs : list R) (k : nat)
    (c c' : Z) (v v' : R) :
  cs !! k = Some c -> vs !! k = Some v ->
  weighted (<[k := c']> cs) (<[k := v']> vs)
  = (weighted cs vs - IZR c * v + IZR c' * v')%R.
Proof.
  revert vs k. induction cs as [|x cs IH]; intros [|y vs] [|k] Hc Hv;
    cbn in Hc, Hv; try discriminate.
  - injection Hc as ->. injection Hv as ->. cbn. lra.
  - change (weighted (<[S k:=c']> (x :: cs)) (<[S k:=v']> (y :: vs)))
      with (IZR x * y + weighted (<[k:=c']> cs) (<[k:=v']> vs))%R.
    rewrite (IH vs k Hc Hv). cbn [weighted]. lra.
Qed.

Lemma update_observed (self : UCB1) (k : nat) (r : R) (self' : UCB1) :
  well_formed self -> (k < length (counts self))%nat ->
  update (Z.of_nat k) r self = (Ok tt, self') ->
  observed_reward self' = (observed_reward self + r)%R.
Proof.
  intros Hwf Hk Hrun.
  destruct (update_run self k r Hwf Hk) as (c & v & Hc & Hv & Hc0 & Hup).
  rewrite Hup in Hrun. injection Hrun as <-.
  unfold observed_reward. cbn [counts values].
  rewrite (weighted_insert _ _ _ _ _ _ _ Hc Hv).
  destruct (new_value_between c v r Hc0) as (_ & _ & Hw).
  cbv zeta in Hw. rewrite Hw. lra.
Qed.

(** X3. [update] keeps the books: on a well-formed agent, updating an arm
    in range with reward [r] raises the sum of [count[j] * value[j]] over
    all arms by exactly [r]. *)
Theorem update_conserves_reward (self : UCB1) (k : nat) (r : R) :
  well_formed self -> (k < length (counts self))%nat ->
  exists self',
    update (Z.of_nat k) r self = (Ok tt, self')
    /\ observed_reward self' = (observed_reward self + r)%R.
Proof.
  intros Hwf Hk.
  destruct (update_run self k r Hwf Hk) as (c & v & _ & _ & _ & Hup).
  eexists. split; [exact Hup|].
  now apply (update_observed self k r _ Hwf Hk).
Qed.

Lemma update_conserves_reward_witness :
  exists self',
    update (Z.of_nat 1) (1 / 2)%R
      {| counts := [2; 5]; values := [1; 0]%R |} = (Ok tt, self')
    /\ observed_reward self'
       = (observed_reward {| counts := [2; 5]%Z; values := [1; 0] |}
          + 1 / 2)%R.
Proof.
  apply (update_conserves_reward
           {| counts := [2; 5]; values := [1; 0]%R |} 1 (1 / 2)%R).
  - split; [reflexivity|]. cbn. repeat constructor; lia.
  - cbn. lia.
Defined.

(** X4. Updates of two different arms commute: on a well-formed agent both
    orders return and leave the same counts and values. *)
Theorem update_commute (self : UCB1) (j k : nat) (r s : R) :
  well_formed self ->
  (j < length (counts self))%nat -> (k < length (counts self))%nat ->
  j <> k ->
  exists final,
    (do _ <- update (Z.of_nat j) r; update (Z.of_nat k) s) self
    = (Ok tt, final)
    /\ (do _ <- update (Z.of_nat k) s; update (Z.of_nat j) r) self
       = (Ok tt, final).
Proof.
  intros Hwf Hj Hk Hne.
  assert (Hpres : forall (a : UCB1) (i : nat) (x : R) (a' : UCB1),
             well_formed a -> (i < length (counts a))%nat ->
             update (Z.of_nat i) x a = (Ok tt, a') ->
             well_formed a' /\ length (counts a') = length (counts a)).
  { intros a i x a' Ha Hi Hrun.
    destruct (update_total a i x Ha Hi) as (a2 & E & Hwf2 & Hl2 & _).
    rewrite E in Hrun. injection Hrun as <-. auto. }
  destruct (update_run self j r Hwf Hj) as (cj & vj & Hcj & Hvj & _ & Hupj).
  destruct (update_run self k s Hwf Hk) as (ck & vk & Hck & Hvk & _ & Hupk).
  destruct (Hpres _ _ _ _ Hwf Hj Hupj) as [Hwfj Hlj].
  destruct (Hpres _ _ _ _ Hwf Hk Hupk) as [Hwfk Hlk].
  destruct (update_run _ k s Hwfj ltac:(lia))
    as (ck' & vk' & Hck' & Hvk' & _ & Hupjk).
  destruct (update_run _ j r Hwfk ltac:(lia))
    as (cj' & vj' & Hcj' & Hvj' & _ & Hupkj).
  cbn [counts values] in *.
  rewrite list_lookup_insert_ne in Hck' by congruence.
  rewrite list_lookup_insert_ne in Hvk' by congruence.
  rewrite list_lookup_insert_ne in Hcj' by congruence.
  rewrite list_lookup_insert_ne in Hvj' by congruence.
  rewrite Hck in Hck'. rewrite Hvk in Hvk'.
  rewrite Hcj in Hcj'. rewrite Hvj in Hvj'.
  injection Hck' as <-. injection Hvk' as <-.
  injection Hcj' as <-. injection Hvj' as <-.
  eexists. split.
  - rewrite (bind_ok _ _ _ _ _ Hupj). exact Hupjk.
  - rewrite (bind_ok _ _ _ _ _ Hupk). rewrite Hupkj. f_equal. f_equal.
    + apply list_insert_insert_ne. congruence.
    + apply list_insert_insert_ne. congruence.
Qed.

Lemma update_commute_witness :
  exists final,
    (do _ <- update (Z.of_nat 0) 1%R; update (Z.of_nat 1) 0%R)
      {| counts := [1; 2]; values := [0; 1]%R |} = (Ok tt, final)
    /\ (do _ <- update (Z.of_nat 1) 0%R; update (Z.of_nat 0) 1%R)
         {| counts := [1; 2]; values := [0; 1]%R |} = (Ok tt, final).
Proof.
  apply (update_commute {| counts := [1; 2]; values := [0; 1]%R |}
           0 1 1%R 0%R).
  - split; [reflexivity|]. cbn. repeat constructor; lia.
  - cbn. lia.
  - cbn. lia.
  - lia.
Defined.

(** ** More on [ind_max] and [select_arm] *)

(** X5. [ind_max] raises only on the empty list, and then [ValueError];
    on any other list it returns a position inside the list that holds the
    largest element, and no earlier position holds it. *)
Theorem ind_max_result (x : list R) :
  match ind_max x with
  | Raise e => x = [] /\ e = ValueError
  | Ok k =>
      exists m, x !! k = Some m
                /\ (forall j y, x !! j = Some y -> (y <= m)%R)
                /\ (forall j y, (j < k)%nat -> x !! j = Some y -> (y < m)%R)
  end.
Proof.
  destruct x as [|x0 x].
  - cbn. auto.
  - destruct (ind_max_first (x0 :: x) ltac:(discriminate))
      as (k & m & E & Hk & Hmax & Hfirst).
    rewrite E. exists m. auto.
Qed.


(** X6. On a well-formed agent [select_arm] raises only when there is no
    arm, and then [ValueError]; otherwise it returns the index of one of
    the agent's arms. *)
Theorem select_arm_result (self : UCB1) :
  well_formed self ->
  (counts self = [] /\ select_arm self = (Raise ValueError, self))
  \/ (counts self <> []
      /\ exists arm, select_arm self = (Ok arm, self)
                     /\ (arm < length (counts self))%nat).
Proof.
  intros Hwf. destruct (counts self) as [|c cs] eqn:E.
  - left. split; [reflexivity|]. rewrite select_arm_eq, E. cbn [length seq].
    unfold ucb_values. rewrite E. reflexivity.
  - right. split; [discriminate|]. rewrite <- E.
    apply select_arm_total; [exact Hwf|]. rewrite E. discriminate.
Qed.

Lemma select_arm_result_witness :
  ([3; 1] = [] /\ select_arm {| counts := [3; 1]; values := [0; 1]%R |}
                  = (Raise ValueError,
                     {| counts := [3; 1]; values := [0; 1]%R |}))
  \/ ([3; 1] <> []
      /\ exists arm,
           select_arm {| counts := [3; 1]; values := [0; 1]%R |}
           = (Ok arm, {| counts := [3; 1]; values := [0; 1]%R |})
           /\ (arm < 2)%nat).
Proof.
  apply (select_arm_result {| counts := [3; 1]; values := [0; 1]%R |}).
  split; [reflexivity|]. cbn. repeat constructor; lia.
Defined.



(** ** The end of the cold start *)

Lemma play_cold_state (rewards : list R) :
  forall (pre : list Z) (vpre : list R),
    Forall (fun c => c <> 0) pre ->
    length vpre = length pre ->
    play rewards {| counts := pre ++ replicate (length rewards) 0;
                    values := vpre ++ replicate (length rewards) 0%R |}
    = (Ok (seq (length pre) (length rewards)),
       {| counts := pre ++ replicate (length rewards) 1;
          values := vpre ++ rewards |}).
Proof.
  induction rewards as [|r rest IH]; intros pre vpre Hpre Hlen.
  - reflexivity.
  - cbn [length replicate seq play].
    set (self := {| counts := pre ++ 0 :: replicate (length rest) 0;
                    values := vpre ++ 0%R :: replicate (length rest) 0%R |}).
    assert (Hk : counts self !! length pre = Some 0)
      by (cbn; apply list_lookup_middle; reflexivity).
    assert (Hv : values self !! length pre = Some 0%R)
      by (cbn; apply list_lookup_middle; auto).
    assert (Hsel : select_arm self = (Ok (length pre), self)).
    { apply select_arm_cold; [exact Hk|].
      intros j c Hj Hc. cbn in Hc. rewrite lookup_app_l in Hc by exact Hj.
      rewrite Forall_lookup in Hpre. exact (Hpre j c Hc). }
    assert (Hup := update_nat self (length pre) r 0 0%R Hk Hv).
    unfold self in Hup at 1 2 4 5. cbn [counts values] in Hup.
    rewrite !length_app in Hup. cbn [length] in Hup.
    rewrite !length_replicate in Hup.
    specialize (Hup ltac:(lia) ltac:(lia)).
    rewrite insert_app_r_alt in Hup by lia.
    rewrite (insert_app_r_alt vpre) in Hup by lia.
    rewrite Hlen, Nat.sub_diag in Hup. cbn [insert list_insert] in Hup.
    replace (IZR (0 + 1 - 1) / IZR (0 + 1) * 0 + 1 / IZR (0 + 1) * r)%R
      with r in Hup by (change (0 + 1 - 1) with 0; change (0 + 1) with 1;
                        field).
    change (0 + 1) with 1 in Hup.
    unfold bind at 1. rewrite Hsel. unfold bind at 1. rewrite Hup.
    unfold bind at 1.
    change (pre ++ 1 :: replicate (length rest) 0)
      with (pre ++ [1] ++ replicate (length rest) 0).
    change (vpre ++ r :: replicate (length rest) 0%R)
      with (vpre ++ [r] ++ replicate (length rest) 0%R).
    rewrite !app_assoc.
    rewrite (IH (pre ++ [1]) (vpre ++ [r])).
    + rewrite <- !app_assoc, length_app, Nat.add_1_r. reflexivity.
    + apply Forall_app. split; [exact Hpre|]. repeat constructor. lia.
    + rewrite !length_app. cbn [length]. lia.
Qed.

(** X8. On a fresh agent, one select/update round per reward in
    [rewards], as many as there are arms, returns and leaves every count
    at 1 and [values] equal to [rewards]: arm [j] holds the [j]-th
    reward. *)
Theorem cold_start_final_state (rewards : list R) :
  exists fresh,
    new_UCB1 (Z.of_nat (length rewards)) = Ok fresh
    /\ play rewards fresh
       = (Ok (seq 0 (length rewards)),
          {| counts := replicate (length rewards) 1; values := rewards |}).
Proof.
  rewrite new_UCB1_eq, Nat2Z.id. eexists. split; [reflexivity|].
  apply (play_cold_state rewards [] []); [constructor|reflexivity].
Qed.

(** ** More on the environment *)

Lemma new_SimpleEmergency_type (g g' : rng) (e : SimpleEmergency) :
  new_SimpleEmergency g = (Ok e, g') ->
  (its_type e = "stab"%string \/ its_type e = "gunshot"%string)
  /\ g' = advance g.
Proof.
  unfold new_SimpleEmergency, bind, random_choice, ret, emergency_type.
  cbn [length].
  pose proof (Nat.mod_upper_bound (raws g (cursor g)) 2 ltac:(lia)) as Hlt.
  destruct (raws g (cursor g) mod 2)%nat as [|[|k]]; cbn;
    [intros [= <- <-]; auto..|lia].
Qed.

Lemma apply_treatment_unknown_label (e : SimpleEmergency) (t : string)
    (g : rng) :
  known_treatment t = false -> apply_treatment e t g = (Ok None, g).
Proof.
  unfold known_treatment, apply_treatment. intros H.
  apply orb_false_iff in H as [-> ->]. now rewrite !andb_false_r.
Qed.

Lemma apply_treatment_known_label (e : SimpleEmergency) (t : string)
    (g : rng) :
  known_treatment t = true ->
  its_type e = "stab"%string \/ its_type e = "gunshot"%string ->
  exists b, apply_treatment e t g = (Ok (Some b), advance g).
Proof.
  unfold known_treatment, apply_treatment, draw_gt, bind, random_random, ret.
  intros Hk [-> | ->]; cbn [String.eqb Ascii.eqb Bool.eqb andb];
    destruct (t =? "basic")%string; cbn [andb orb] in *; eauto;
    destruct (t =? "advanced")%string; cbn [andb orb] in *; eauto;
    discriminate.
Qed.

(** X9. For an emergency made by [SimpleEmergency()], [apply_treatment]
    draws once and returns a boolean when the treatment is ['basic'] or
    ['advanced']; for any other treatment it draws nothing and returns
    [None] (which the harness counts as a failure). *)
Theorem apply_treatment_result_kind (g0 g1 g : rng) (e : SimpleEmergency)
    (t : string) :
  new_SimpleEmergency g0 = (Ok e, g1) ->
  (known_treatment t = true ->
   exists b, apply_treatment e t g = (Ok (Some b), advance g))
  /\ (known_treatment t = false ->
      apply_treatment e t g = (Ok None, g)
      /\ reward_of None = 0%R).
Proof.
  intros He. apply new_SimpleEmergency_type in He as [Ht _]. split.
  - intros Hk. now apply apply_treatment_known_label.
  - intros Hk. split; [now apply apply_treatment_unknown_label|reflexivity].
Qed.

Lemma apply_treatment_result_kind_witness :
  let g0 := {| floats := fun _ => (7 / 10)%R; raws := fun n => n;
               cursor := 0 |} in
  (known_treatment "basic" = true ->
   exists b, apply_treatment {| its_type := "stab" |} "basic" (advance g0)
             = (Ok (Some b), advance (advance g0)))
  /\ (known_treatment "basic" = false ->
      apply_treatment {| its_type := "stab" |} "basic" (advance g0)
      = (Ok None, advance g0)
      /\ reward_of None = 0%R).
Proof.
  intros g0.
  apply (apply_treatment_result_kind g0 (advance g0) (advance g0)
           {| its_type := "stab" |} "basic"%string).
  reflexivity.
Defined.

(** ** Invariants of the training loop *)

Lemma zeros_cons (x : Z) (l : list Z) :
  length (filter (fun c => c = 0) (x :: l))
  = ((if decide (x = 0%Z) then 1 else 0)
     + length (filter (fun c => c = 0%Z) l))%nat.
Proof.
  destruct (decide (x = 0)) as [H|H].
  - now rewrite filter_cons_True.
  - now rewrite filter_cons_False.
Qed.

Lemma zeros_insert (l : list Z) (k : nat) (c d : Z) :
  l !! k = Some c -> d <> 0 ->
  length (filter (fun c => c = 0) l)
  = (length (filter (fun c => c = 0%Z) (<[k := d]> l))
     + (if decide (c = 0%Z) then 1 else 0))%nat.
Proof.
  intros Hc Hd. revert k Hc.
  induction l as [|x l IH]; intros [|k] Hc; cbn in Hc; try discriminate.
  - injection Hc as ->. cbn [insert list_insert]. rewrite !zeros_cons.
    destruct (decide (d = 0)); [contradiction|]. lia.
  - change (<[S k:=d]> (x :: l)) with (x :: <[k:=d]> l).
    rewrite !zeros_cons, (IH k Hc). lia.
Qed.

Lemma zeros_none (l : list Z) :
  length (filter (fun c => c = 0) l) = 0%nat <-> Forall (fun c => c <> 0) l.
Proof.
  induction l as [|x l IH].
  - split; [constructor|reflexivity].
  - rewrite zeros_cons, Forall_cons. destruct (decide (x = 0)); split.
    + lia.
    + intros [? _]. contradiction.
    + intros H. split; [assumption|]. apply IH. lia.
    + intros [_ H]. apply IH in H. lia.
Qed.

Lemma zeros_replicate (n : nat) :
  length (filter (fun c => c = 0) (replicate n 0)) = n.
Proof.
  induction n as [|n IH]; [reflexivity|].
  cbn [replicate]. rewrite zeros_cons, IH.
  destruct (decide (0 = 0)); [reflexivity|contradiction].
Qed.

Lemma weighted_replicate_0 (n : nat) :
  weighted (replicate n 0) (replicate n 0%R) = 0%R.
Proof. induction n as [|n IH]; cbn; [reflexivity|]. rewrite IH. lra. Qed.

Lemma select_arm_takes_untried (self : UCB1) (arm : nat) :
  (0 < untried self)%nat ->
  select_arm self = (Ok arm, self) ->
  counts self !! arm = Some 0.
Proof.
  intros Hpos Hsel. rewrite select_arm_eq in Hsel.
  destruct (cold_loop_seq (length (counts self)) 0 (counts self) ltac:(lia))
    as [(a & E & _ & Hz & _)|[_ Hnz]].
  - rewrite E in Hsel. now injection Hsel as <-.
  - exfalso. assert (Hall : Forall (fun c => c <> 0) (counts self)).
    { rewrite Forall_lookup. intros j c Hc.
      apply (Hnz j c); [|exact Hc]. apply lookup_lt_Some in Hc. lia. }
    apply zeros_none in Hall. unfold untried in Hpos. lia.
Qed.

Lemma train_step_run (arm_labels : list string) (b : UCB1) (g : rng) :
  well_formed b -> arm_labels <> [] ->
  length (counts b) = length arm_labels ->
  exists arm label o b' g',
    select_arm b = (Ok arm, b)
    /\ (arm < length (counts b))%nat
    /\ arm_labels !! arm = Some label
    /\ (known_treatment label = false -> o = None)
    /\ update (Z.of_nat arm) (reward_of o) b = (Ok tt, b')
    /\ train_step arm_labels b g = (Ok b', g')
    /\ well_formed b'
    /\ length (counts b') = length (counts b).
Proof.
  intros Hwf Hne Hlen.
  assert (Hcne : counts b <> []).
  { intros E. rewrite E in Hlen. destruct arm_labels; [auto|discriminate]. }
  destruct (new_SimpleEmergency_total g) as [e He].
  destruct (select_arm_total b Hwf Hcne) as (arm & Hsel & Harm).
  destruct (lookup_lt_is_Some_2 arm_labels arm ltac:(lia)) as [label Hlab].
  destruct (apply_treatment_total e label (advance g)) as (o & g' & Ho).
  destruct (update_total b arm (reward_of o) Hwf Harm)
    as (b' & Hup & Hwf' & Hlen' & _).
  exists arm, label, o, b', g'.
  repeat (split; [assumption|]). split; [|split; [exact Hup|split; auto]].
  - intros Hk. rewrite (apply_treatment_unknown_label e label _ Hk) in Ho.
    now injection Ho as <- _.
  - unfold train_step.
    rewrite (bind_ok _ _ _ _ _ He).
    rewrite (bind_ok _ _ _ _ _ (call_ok _ _ _ _ _ Hsel)). cbn [fst snd].
    unfold lift at 1, bind at 1. rewrite (getitem_nat _ _ _ Hlab).
    rewrite (bind_ok _ _ _ _ _ Ho).
    fold (reward_of o).
    rewrite (bind_ok _ _ _ _ _ (call_ok _ _ _ _ _ Hup)). reflexivity.
Qed.

Section TrainingInvariant.

Variable arm_labels : list string.
Variable Inv : nat -> UCB1 -> Prop.

Hypothesis labels_nonempty : arm_labels <> [].

Hypothesis Inv_step :
  forall (n : nat) (b b' : UCB1) (arm : nat) (label : string)
         (o : option bool),
    well_formed b ->
    length (counts b) = length arm_labels ->
    Inv n b ->
    select_arm b = (Ok arm, b) ->
    arm_labels !! arm = Some label ->
    (known_treatment label = false -> o = None) ->
    update (Z.of_nat arm) (reward_of o) b = (Ok tt, b') ->
    Inv (S n) b'.

Lemma train_loop_invariant (iters : list nat) :
  forall (n : nat) (b : UCB1) (g : rng),
    well_formed b ->
    length (counts b) = length arm_labels ->
    Inv n b ->
    exists final g',
      train_loop iters arm_labels b g = (Ok final, g')
      /\ well_formed final
      /\ Inv (n + length iters) final.
Proof using labels_nonempty Inv_step.
  induction iters as [|i rest IH]; intros n b g Hwf Hlen HI.
  - exists b, g. cbn. rewrite Nat.add_0_r. auto.
  - destruct (train_step_run arm_labels b g Hwf labels_nonempty Hlen)
      as (arm & label & o & b1 & g1 & Hsel & _ & Hlab & Ho & Hup & Hstep
          & Hwf1 & Hlen1).
    pose proof (Inv_step n b b1 arm label o Hwf Hlen HI Hsel Hlab Ho Hup)
      as HI1.
    destruct (IH (S n) b1 g1 Hwf1 ltac:(congruence) HI1)
      as (final & g' & Hrun & Hwf' & HI').
    exists final, g'. cbn [train_loop]. rewrite (bind_ok _ _ _ _ _ Hstep).
    split; [exact Hrun|]. split; [exact Hwf'|].
    cbn [length]. now rewrite Nat.add_succ_r.
Qed.

Lemma train_UCB1_invariant (trials : Z) (g : rng) :
  Inv 0 {| counts := replicate (length arm_labels) 0;
           values := replicate (length arm_labels) 0%R |} ->
  exists final g',
    train_UCB1 trials arm_labels g = (Ok final, g')
    /\ well_formed final
    /\ Inv (Z.to_nat trials) final.
Proof using labels_nonempty Inv_step.
  intros H0. unfold train_UCB1. rewrite new_UCB1_eq, Nat2Z.id.
  unfold lift at 1, bind at 1.
  destruct (train_loop_invariant (Py.range trials) 0 _ g
              (fresh_well_formed (length arm_labels))
              ltac:(cbn; apply length_replicate) H0)
    as (final & g' & Hrun & Hwf & HI).
  exists final, g'. split; [exact Hrun|]. split; [exact Hwf|].
  unfold Py.range in HI. now rewrite length_seq in HI.
Qed.

End TrainingInvariant.

(** X10. Training tries every arm: when [trials] is at least the number of
    arm labels (and there is a label), the agent [train_UCB1] returns has
    every count [>= 1]. *)
Theorem train_UCB1_every_arm_tried (trials : Z) (arm_labels : list string)
    (g : rng) :
  arm_labels <> [] ->
  Z.of_nat (length arm_labels) <= trials ->
  exists final g',
    train_UCB1 trials arm_labels g = (Ok final, g')
    /\ Forall (fun c => 1 <= c) (counts final).
Proof.
  intros Hne Htr.
  destruct (train_UCB1_invariant arm_labels
              (fun n b => untried b = (length arm_labels - n)%nat)
              Hne) with (trials := trials) (g := g)
    as (final & g' & Hrun & [_ Hpos] & HI).
  - intros n b b' arm label o Hwf Hlen HI Hsel Hlab _ Hup.
    pose proof (lookup_lt_Some _ _ _ Hlab) as Harm.
    destruct (update_run b arm (reward_of o) Hwf ltac:(lia))
      as (c & v & Hc & _ & Hc0 & Hup').
    rewrite Hup' in Hup. injection Hup as <-.
    unfold untried in *. cbn [counts].
    pose proof (zeros_insert (counts b) arm c (c + 1) Hc ltac:(lia)) as Hz.
    destruct (decide (c = 0)) as [->|Hcne]; [lia|].
    destruct (Nat.eq_dec (length (filter (fun c => c = 0) (counts b)))
                0%nat)
      as [E0|Epos]; [lia|].
    pose proof (select_arm_takes_untried b arm
                  ltac:(unfold untried; lia) Hsel) as Hzero.
    congruence.
  - unfold untried. cbn [counts]. rewrite zeros_replicate. lia.
  - exists final, g'. split; [exact Hrun|].
    assert (Hz : untried final = 0%nat) by lia.
    apply zeros_none in Hz. rewrite Forall_lookup in *.
    intros j c Hc. pose proof (Hz j c Hc). pose proof (Hpos j c Hc).
    cbn in *. lia.
Qed.

Lemma train_UCB1_every_arm_tried_witness :
  exists final g',
    train_UCB1 5 ["basic"; "advanced"; "placebo"]%string
      {| floats := fun _ => (7 / 10)%R; raws := fun n => n; cursor := 0 |}
    = (Ok final, g')
    /\ Forall (fun c => 1 <= c) (counts final).
Proof.
  apply (train_UCB1_every_arm_tried 5
           ["basic"; "advanced"; "placebo"]%string).
  - discriminate.
  - cbn. lia.
Defined.

(** X11. Every value of the agent [train_UCB1] returns lies in [0, 1]. *)
Theorem train_UCB1_values_in_unit_interval (trials : Z)
    (arm_labels : list string) (g : rng) :
  arm_labels <> [] ->
  exists final g',
    train_UCB1 trials arm_labels g = (Ok final, g')
    /\ Forall (fun v => (0 <= v <= 1)%R) (values final).
Proof.
  intros Hne.
  destruct (train_UCB1_invariant arm_labels
              (fun _ b => Forall (fun v => (0 <= v <= 1)%R) (values b))
              Hne) with (trials := trials) (g := g)
    as (final & g' & Hrun & _ & HI).
  - intros _ b b' arm label o Hwf Hlen HI Hsel Hlab _ Hup.
    pose proof (lookup_lt_Some _ _ _ Hlab) as Harm.
    destruct (update_run b arm (reward_of o) Hwf ltac:(lia))
      as (c & v & Hc & Hv & Hc0 & Hup').
    rewrite Hup' in Hup. injection Hup as <-. cbn [values].
    apply Forall_insert; [exact HI|].
    destruct (new_value_between c v (reward_of o) Hc0) as (Hb & _).
    cbv zeta in Hb. rewrite Forall_lookup in HI. pose proof (HI _ _ Hv) as Hv01.
    cbn in Hv01.
    assert (Hr : (0 <= reward_of o <= 1)%R)
      by (unfold reward_of; destruct (truthy o); lra).
    unfold Rmin, Rmax in Hb. destruct (Rle_dec v (reward_of o)); lra.
  - cbn [values]. apply Forall_replicate. lra.
  - exists final, g'. auto.
Qed.

Lemma train_UCB1_values_in_unit_interval_witness :
  exists final g',
    train_UCB1 1000 ["basic"; "advanced"]%string
      {| floats := fun _ => (7 / 10)%R; raws := fun n => n; cursor := 0 |}
    = (Ok final, g')
    /\ Forall (fun v => (0 <= v <= 1)%R) (values final).
Proof.
  apply (train_UCB1_values_in_unit_interval 1000
           ["basic"; "advanced"]%string).
  discriminate.
Defined.

(** X12. The statistics of the agent [train_UCB1] returns add up to a
    number of successes: the sum of [count[i] * value[i]] over the arms is
    an integer between 0 and the number of trials. *)
Theorem train_UCB1_observed_successes (trials : Z)
    (arm_labels : list string) (g : rng) :
  arm_labels <> [] ->
  0 <= trials ->
  exists final g' (successes : Z),
    train_UCB1 trials arm_labels g = (Ok final, g')
    /\ observed_reward final = IZR successes
    /\ 0 <= successes <= trials.
Proof.
  intros Hne Htr.
  destruct (train_UCB1_invariant arm_labels
              (fun n b => exists s : Z,
                   observed_reward b = IZR s /\ 0 <= s <= Z.of_nat n)
              Hne) with (trials := trials) (g := g)
    as (final & g' & Hrun & _ & (s & Hs & Hb)).
  - intros n b b' arm label o Hwf Hlen (s & Hs & Hb) Hsel Hlab _ Hup.
    pose proof (lookup_lt_Some _ _ _ Hlab) as Harm.
    rewrite (update_observed b arm _ b' Hwf ltac:(lia) Hup), Hs.
    unfold reward_of. destruct (truthy o).
    + exists (s + 1). rewrite plus_IZR. split; [reflexivity|lia].
    + exists s. split; [lra|lia].
  - exists 0. unfold observed_reward. cbn [counts values].
    rewrite weighted_replicate_0. split; [reflexivity|lia].
  - exists final, g', s. split; [exact Hrun|]. split; [exact Hs|lia].
Qed.

Lemma train_UCB1_observed_successes_witness :
  exists final g' (successes : Z),
    train_UCB1 10 ["basic"; "advanced"]%string
      {| floats := fun _ => (7 / 10)%R; raws := fun n => n; cursor := 0 |}
    = (Ok final, g')
    /\ observed_reward final = IZR successes
    /\ 0 <= successes <= 10.
Proof.
  apply (train_UCB1_observed_successes 10 ["basic"; "advanced"]%string);
    [discriminate|lia].
Defined.

(** X13. Labels the environment does not know are not an error: when no
    arm label is ['basic'] or ['advanced'], [train_UCB1] still returns, and
    every value of the returned agent is 0.0, since every trial counts as
    a failure. *)
Theorem train_UCB1_unknown_labels (trials : Z) (arm_labels : list string)
    (g : rng) :
  arm_labels <> [] ->
  Forall (fun label => known_treatment label = false) arm_labels ->
  exists final g',
    train_UCB1 trials arm_labels g = (Ok final, g')
    /\ Forall (fun v => v = 0%R) (values final).
Proof.
  intros Hne Hunk.
  destruct (train_UCB1_invariant arm_labels
              (fun _ b => Forall (fun v => v = 0%R) (values b))
              Hne) with (trials := trials) (g := g)
    as (final & g' & Hrun & _ & HI).
  - intros _ b b' arm label o Hwf Hlen HI Hsel Hlab Ho Hup.
    pose proof (lookup_lt_Some _ _ _ Hlab) as Harm.
    rewrite Forall_lookup in Hunk. rewrite (Ho (Hunk _ _ Hlab)) in Hup.
    destruct (update_run b arm (reward_of None) Hwf ltac:(lia))
      as (c & v & Hc & Hv & Hc0 & Hup').
    rewrite Hup' in Hup. injection Hup as <-. cbn [values].
    apply Forall_insert; [exact HI|].
    rewrite Forall_lookup in HI. pose proof (HI _ _ Hv) as Hv0.
    cbn in Hv0. subst v. unfold reward_of. cbn [truthy].
    assert (IZR (c + 1) <> 0%R) by (apply not_0_IZR; lia).
    field. assumption.
  - cbn [values]. apply Forall_replicate. reflexivity.
  - exists final, g'. auto.
Qed.

Lemma train_UCB1_unknown_labels_witness :
  exists final g',
    train_UCB1 20 ["placebo"; "surgery"]%string
      {| floats := fun _ => (7 / 10)%R; raws := fun n => n; cursor := 0 |}
    = (Ok final, g')
    /\ Forall (fun v => v = 0%R) (values final).
Proof.
  apply (train_UCB1_unknown_labels 20 ["placebo"; "surgery"]%string).
  - discriminate.
  - repeat constructor.
Defined.

(** ** Selection over a rounded arithmetic: first maximum *)

Lemma exact_arith_lawful : lawful exact_arith.
Proof.
  constructor; cbn.
  - intros c Hc. apply IZR_lt. lia.
  - intros c c' Hc. now apply IZR_le.
  - intros t Ht. apply ln_nonneg. now apply IZR_le.
  - intros x y Hx Hy. now apply Rmult_le_pos.
  - intros x y Hx Hy. unfold Rdiv. apply Rmult_le_pos; [exact Hx|].
    apply Rlt_le. now apply Rinv_0_lt_compat.
  - intros x y y' Hx Hy Hy'. unfold Rdiv.
    apply Rmult_le_compat_l; [exact Hx|].
    apply Rinv_le_contravar; assumption.
  - intros x y Hx Hxy. now apply sqrt_le_1_alt.
  - intros x x' y y' Hx Hy. now apply Rplus_le_compat.
Qed.

Lemma rounded_exact_ucb_loop (arms : list nat) (self : UCB1) (total : Z) :
  forall ucb,
    Rounded.ucb_loop exact_arith arms self total ucb
    = ucb_loop arms self total ucb.
Proof.
  induction arms as [|arm rest IH]; intros ucb; [reflexivity|].
  cbn [Rounded.ucb_loop ucb_loop]. unfold Rounded.log, Py.log.
  destruct (Z.leb_spec total 0) as [Hle|Hgt];
    destruct (Rle_dec (IZR total) 0) as [Hr|Hr]; cbn [rbind].
  - reflexivity.
  - exfalso. apply Hr. now apply (IZR_le total 0).
  - exfalso. apply (IZR_lt 0 total) in Hgt. lra.
  - destruct (Py.getitem (counts self) (Z.of_nat arm)) as [c|e];
      [|reflexivity]. cbn [rbind].
    change (Rounded.div exact_arith) with Py.div.
    destruct (Py.div _ _) as [q|e]; [|reflexivity]. cbn [rbind].
    change (Rounded.sqrt exact_arith) with Py.sqrt.
    destruct (Py.sqrt q) as [bonus|e]; [|reflexivity]. cbn [rbind].
    destruct (Py.getitem (values self) (Z.of_nat arm)) as [v|e];
      [|reflexivity]. cbn [rbind].
    destruct (Py.setitem ucb (Z.of_nat arm) _) as [ucb'|e];
      [|reflexivity]. cbn [rbind]. apply IH.
Qed.

(** The agent of section "The agent" is the rounded one run over the
    arithmetic that does not round. *)
Lemma rounded_exact_select_arm (self : UCB1) :
  Rounded.select_arm exact_arith self = select_arm self.
Proof.
  unfold Rounded.select_arm, select_arm, Rounded.ucb_values, ucb_values.
  unfold bind, get, lift. destruct (cold_loop _ _) as [[arm|]|e];
    try reflexivity.
  now rewrite rounded_exact_ucb_loop.
Qed.

Lemma rounded_select_arm_eq (A : arithmetic) (self : UCB1) :
  Rounded.select_arm A self =
  (match cold_loop (seq 0 (length (counts self))) (counts self) with
   | Ok (Some arm) => Ok arm
   | Ok None => let? ucb := Rounded.ucb_values A self in ind_max ucb
   | Raise e => Raise e
   end, self).
Proof.
  unfold Rounded.select_arm, bind, get, lift, ret. rewrite range_of_nat.
  destruct (cold_loop _ _) as [[arm|]|e]; try reflexivity.
  destruct (Rounded.ucb_values A self); reflexivity.
Qed.

Lemma rounded_bonus_arg_nonneg (A : arithmetic) (total c : Z) :
  lawful A -> 1 <= total -> 1 <= c ->
  (0 <= fl_div A (fl_mul A (fl_of_int A 2) (fl_log A total))
          (fl_of_int A c))%R.
Proof.
  intros HA Ht Hc. apply (fl_div_nonneg A HA).
  - apply (fl_mul_nonneg A HA).
    + apply Rlt_le, (fl_of_int_pos A HA). lia.
    + now apply (fl_log_nonneg A HA).
  - now apply (fl_of_int_pos A HA).
Qed.

Lemma rounded_ucb_loop_seq (A : arithmetic) (self : UCB1) (total : Z)
    (n : nat) :
  lawful A ->
  length (values self) = length (counts self) ->
  Forall (fun c => 1 <= c) (counts self) ->
  1 <= total ->
  forall (s : nat) (ucb : list R),
    (s + n <= length (counts self))%nat ->
    length ucb = length (counts self) ->
    exists ucb',
      Rounded.ucb_loop A (seq s n) self total ucb = Ok ucb'
      /\ length ucb' = length ucb
      /\ (forall j c v, (s <= j < s + n)%nat ->
            counts self !! j = Some c -> values self !! j = Some v ->
            ucb' !! j = Some (Rounded.score A total c v))
      /\ (forall j, (j < s)%nat -> ucb' !! j = ucb !! j).
Proof.
  intros HA Hlen Hall Htot.
  induction n as [|n IH]; intros s ucb Hs Hu.
  - exists ucb. split; [reflexivity|]. split; [reflexivity|].
    split; [intros; lia|reflexivity].
  - cbn [seq Rounded.ucb_loop]. unfold Rounded.log.
    destruct (Z.leb_spec total 0) as [Hle|_]; [lia|]. cbn [rbind].
    destruct (lookup_lt_is_Some_2 (counts self) s ltac:(lia)) as [c Hc].
    destruct (lookup_lt_is_Some_2 (values self) s ltac:(lia)) as [v Hv].
    assert (Hc1 : 1 <= c) by (rewrite Forall_lookup in Hall; eauto).
    pose proof (fl_of_int_pos A HA c Hc1) as HcR.
    rewrite (getitem_nat _ _ _ Hc). cbn [rbind]. unfold Rounded.div.
    destruct (Req_dec_T (fl_of_int A c) 0) as [E|_]; [lra|]. cbn [rbind].
    unfold Rounded.sqrt.
    destruct (Rlt_dec _ 0) as [Hneg|_].
    { pose proof (rounded_bonus_arg_nonneg A total c HA Htot Hc1). lra. }
    cbn [rbind]. rewrite (getitem_nat _ _ _ Hv). cbn [rbind].
    rewrite setitem_nat by lia. cbn [rbind].
    set (ucb1 := <[s := _]> ucb).
    destruct (IH (S s) ucb1) as (ucb' & E & Hl' & Hin & Hout);
      [lia|unfold ucb1; now rewrite length_insert|].
    exists ucb'. split; [exact E|]. split.
    { rewrite Hl'. unfold ucb1. now rewrite length_insert. }
    split.
    + intros j cj vj Hj Hcj Hvj.
      destruct (decide (j = s)) as [->|Hne].
      * rewrite Hout by lia. unfold ucb1.
        rewrite list_lookup_insert_eq by lia.
        rewrite Hc in Hcj. rewrite Hv in Hvj.
        injection Hcj as <-. injection Hvj as <-. reflexivity.
      * apply Hin; [lia|exact Hcj|exact Hvj].
    + intros j Hj. rewrite Hout by lia. unfold ucb1.
      apply list_lookup_insert_ne. lia.
Qed.

Lemma rounded_ucb_values_scores (A : arithmetic) (self : UCB1) :
  lawful A ->
  counts self <> [] ->
  length (values self) = length (counts self) ->
  Forall (fun c => 1 <= c) (counts self) ->
  exists u,
    Rounded.ucb_values A self = Ok u
    /\ length u = length (counts self)
    /\ forall j c v,
         counts self !! j = Some c -> values self !! j = Some v ->
         u !! j = Some (Rounded.score A (Py.sum (counts self)) c v).
Proof.
  intros HA Hne Hlen Hall. unfold Rounded.ucb_values. rewrite range_of_nat.
  assert (Htot : 1 <= Py.sum (counts self)).
  { pose proof (sum_lower _ 1 Hall).
    destruct (counts self); [contradiction|cbn [length] in *; lia]. }
  destruct (rounded_ucb_loop_seq A self (Py.sum (counts self))
              (length (counts self)) HA Hlen Hall Htot 0
              (map (fun _ => 0%R) (seq 0 (length (counts self)))))
    as (u & E & Hl & Hin & _).
  { lia. }
  { now rewrite length_map, length_seq. }
  exists u. split; [exact E|]. split.
  { now rewrite Hl, length_map, length_seq. }
  intros j c v Hc Hv. apply Hin; auto.
  apply lookup_lt_Some in Hc. lia.
Qed.

Lemma rounded_select_arm_scores (A : arithmetic) (self : UCB1) :
  lawful A ->
  counts self <> [] ->
  length (values self) = length (counts self) ->
  Forall (fun c => 1 <= c) (counts self) ->
  exists arm c v,
    Rounded.select_arm A self = (Ok arm, self)
    /\ counts self !! arm = Some c
    /\ values self !! arm = Some v
    /\ (forall j cj vj,
          counts self !! j = Some cj -> values self !! j = Some vj ->
          (Rounded.score A (Py.sum (counts self)) cj vj
           <= Rounded.score A (Py.sum (counts self)) c v)%R)
    /\ (forall j cj vj, (j < arm)%nat ->
          counts self !! j = Some cj -> values self !! j = Some vj ->
          (Rounded.score A (Py.sum (counts self)) cj vj
           < Rounded.score A (Py.sum (counts self)) c v)%R).
Proof.
  intros HA Hne Hlen Hall.
  destruct (rounded_ucb_values_scores A self HA Hne Hlen Hall)
    as (u & Eu & Hl & Hu).
  assert (Hune : u <> [])
    by (intros ->; destruct (counts self); [contradiction|discriminate]).
  destruct (ind_max_first u Hune) as (k & m & Ek & Hk & Hmax & Hfirst).
  pose proof (lookup_lt_Some _ _ _ Hk) as Lk.
  destruct (lookup_lt_is_Some_2 (counts self) k ltac:(lia)) as [c Hc].
  destruct (lookup_lt_is_Some_2 (values self) k ltac:(lia)) as [v Hv].
  pose proof (Hu k c v Hc Hv) as Hs. rewrite Hk in Hs. injection Hs as ->.
  exists k, c, v.
  rewrite rounded_select_arm_eq, cold_loop_none, Eu by exact Hall.
  cbn [rbind]. rewrite Ek.
  repeat (split; [reflexivity || assumption|]). split.
  - intros j cj vj Hcj Hvj. exact (Hmax j _ (Hu j cj vj Hcj Hvj)).
  - intros j cj vj Hj Hcj Hvj. exact (Hfirst j _ Hj (Hu j cj vj Hcj Hvj)).
Qed.

(** C2. On an agent with at least one arm and every count [>= 1],
    [select_arm] returns, and the arm it returns has the largest score
    [value + sqrt(2 * log(total) / count)], with [total] the sum of the
    counts; every arm of lower index has a strictly smaller score. The
    scores are the floats the code computes: this holds for every
    rounding of the operations that keeps signs and order, and so also
    for the exact scores when nothing is rounded. *)
Theorem select_arm_first_max (A : arithmetic) (self : UCB1) :
  lawful A ->
  counts self <> [] ->
  length (values self) = length (counts self) ->
  Forall (fun c => 1 <= c) (counts self) ->
  let total := Py.sum (counts self) in
  exists arm c v,
    Rounded.select_arm A self = (Ok arm, self)
    /\ counts self !! arm = Some c
    /\ values self !! arm = Some v
    /\ (forall j cj vj,
          counts self !! j = Some cj -> values self !! j = Some vj ->
          (Rounded.score A total cj vj <= Rounded.score A total c v)%R)
    /\ (forall j cj vj, (j < arm)%nat ->
          counts self !! j = Some cj -> values self !! j = Some vj ->
          (Rounded.score A total cj vj < Rounded.score A total c v)%R).
Proof.
  intros HA Hne Hlen Hall total. subst total.
  destruct (rounded_ucb_values_scores A self HA Hne Hlen Hall)
    as (u & Eu & Hl & Hu).
  assert (Hune : u <> [])
    by (intros ->; destruct (counts self); [contradiction|discriminate]).
  destruct (ind_max_first u Hune) as (k & m & Ek & Hk & Hmax & Hfirst).
  pose proof (lookup_lt_Some _ _ _ Hk) as Lk.
  destruct (lookup_lt_is_Some_2 (counts self) k ltac:(lia)) as [c Hc].
  destruct (lookup_lt_is_Some_2 (values self) k ltac:(lia)) as [v Hv].
  pose proof (Hu k c v Hc Hv) as Hs. rewrite Hk in Hs. injection Hs as ->.
  exists k, c, v.
  rewrite rounded_select_arm_eq, cold_loop_none, Eu by exact Hall.
  cbn [rbind]. rewrite Ek.
  repeat (split; [reflexivity || assumption|]). split.
  - intros j cj vj Hcj Hvj. exact (Hmax j _ (Hu j cj vj Hcj Hvj)).
  - intros j cj vj Hj Hcj Hvj. exact (Hfirst j _ Hj (Hu j cj vj Hcj Hvj)).
Qed.

Lemma select_arm_first_max_witness :
  Rounded.select_arm exact_arith {| counts := [1; 1]; values := [1; 1]%R |}
  = (Ok 0%nat, {| counts := [1; 1]; values := [1; 1]%R |}).
Proof.
  destruct (select_arm_first_max exact_arith
              {| counts := [1; 1]; values := [1; 1]%R |})
    as (arm & c & v & E & Hc & Hv & _ & Hfirst).
  - exact exact_arith_lawful.
  - discriminate.
  - reflexivity.
  - repeat constructor; lia.
  - destruct arm as [|[|arm]].
    + exact E.
    + exfalso. cbn in Hc, Hv. injection Hc as <-. injection Hv as <-.
      specialize (Hfirst 0%nat 1 1%R ltac:(lia) eq_refl eq_refl). lra.
    + discriminate Hc.
Defined.

Lemma floor_sum_arith_lawful : lawful floor_sum_arith.
Proof.
  destruct exact_arith_lawful as [H1 H2 H3 H4 H5 H6 H7 _].
  constructor; try assumption. cbn.
  intros x x' y y' Hx Hy. apply IZR_le, Zfloor_le. lra.
Qed.

Lemma ln_2_lt_1 : (ln 2 < 1)%R.
Proof.
  assert (H : (ln 2 < ln (exp 1))%R).
  { apply ln_increasing; [lra|]. pose proof (exp_ineq1 1 ltac:(lra)). lra. }
  now rewrite ln_exp in H.
Qed.

(** Rounding can make the scores of two arms tie although their values
    differ; [select_arm] then returns the first of them. *)
Example rounded_tie_selects_first :
  Rounded.select_arm floor_sum_arith
    {| counts := [1; 1]; values := [0; 1 / 2]%R |}
  = (Ok 0%nat, {| counts := [1; 1]; values := [0; 1 / 2]%R |}).
Proof.
  destruct (rounded_select_arm_scores floor_sum_arith
              {| counts := [1; 1]; values := [0; 1 / 2]%R |})
    as (arm & c & v & E & Hc & Hv & _ & Hfirst).
  - exact floor_sum_arith_lawful.
  - discriminate.
  - reflexivity.
  - repeat constructor; lia.
  - destruct arm as [|[|arm]]; [exact E| |discriminate Hc].
    exfalso. cbn in Hc, Hv. injection Hc as <-. injection Hv as <-.
    specialize (Hfirst 0%nat 1 0%R ltac:(lia) eq_refl eq_refl).
    unfold Rounded.score in Hfirst. cbn in Hfirst.
    change (0 + 1 + 1) with 2 in Hfirst.
    set (b := R_sqrt.sqrt (2 * ln 2 / 1)) in Hfirst.
    assert (Hb2 : (b * b = 2 * ln 2)%R).
    { unfold b. rewrite sqrt_sqrt; [field|].
      pose proof ln_lt_2. lra. }
    assert (Hb0 : (0 <= b)%R) by apply sqrt_pos.
    pose proof ln_lt_2 as Hlo. pose proof ln_2_lt_1 as Hhi.
    assert (Hb : (1 <= b < 3 / 2)%R) by (split; nra).
    rewrite (Zfloor_eq 1 (0 + b)) in Hfirst by (cbn; lra).
    rewrite (Zfloor_eq 1 (1 / 2 + b)) in Hfirst by (cbn; lra).
    lra.
Qed.

(** ** Selection and arms that are at least as good *)



